(** * FileManager: a console file manager over std::filesystem

    Shallow embedding of [BaseFileManager.cpp] (the status-code facade),
    [FileManagerUI.cpp] (the console controller) and the direct-printing
    [BaseFileManager] class of [FileManager.cpp].

    C++ code runs in a small state-and-exception monad.  The state is the
    process' world: the directory tree, the standard streams and the log of
    shell commands.  What the C++ library and the operating system do
    ([std::filesystem], [std::ofstream], [std::stoi], [std::istream]) is
    modelled in [Module Cxx], [Module Os], [Module Console] and
    [Module Formatted]; the repository's own functions are in
    [Module Facade], [Module UI], [Module Printing] and [Module Earlier]
    (the controller of [FileManager.cpp]).  [Module Contract] and
    [Module Behaviour] hold the vocabulary of the properties, which follow
    the definitions. *)

From Stdlib Require Import List String Ascii ZArith Lia Bool Arith.
From Stdlib Require DecimalString.
Import ListNotations.
Open Scope string_scope.

Set Implicit Arguments.

(** ** Exceptions and the monad *)

Inductive errc :=
| ENOENT | ENOTDIR | EISDIR | EACCES | EIO | EEXIST | ENOTEMPTY | EINVAL | EBUSY.

Inductive exn :=
| filesystem_error (ec : errc)
| invalid_argument (what_arg : string)
| out_of_range (what_arg : string).

Inductive result (A : Type) :=
| Ret (a : A)
| Throw (e : exn).
Arguments Ret {A} a.
Arguments Throw {A} e.

(** [M S A]: a computation over a state [S] that returns an [A] or throws.
    State changes made before a throw are kept, as in C++. *)
Definition M (S A : Type) := S -> result A * S.

Definition ret {S A} (a : A) : M S A := fun s => (Ret a, s).
Definition throw {S A} (e : exn) : M S A := fun s => (Throw e, s).
Definition bind {S A B} (m : M S A) (k : A -> M S B) : M S B :=
  fun s => match m s with
           | (Ret a, s') => k a s'
           | (Throw e, s') => (Throw e, s')
           end.
Definition gets {S A} (f : S -> A) : M S A := fun s => (Ret (f s), s).
Definition modify {S} (f : S -> S) : M S unit := fun s => (Ret tt, f s).

(** [try { body } catch (...) { handler }]; [catches] says which exceptions
    the handler's type matches, the others propagate. *)
Definition try_catch {S A} (body : M S A) (catches : exn -> bool)
           (handler : exn -> M S A) : M S A :=
  fun s => match body s with
           | (Ret a, s') => (Ret a, s')
           | (Throw e, s') => if catches e then handler e s' else (Throw e, s')
           end.

Declare Scope cxx_scope.
Delimit Scope cxx_scope with cxx.
Notation "x <- c1 ;; c2" := (bind c1 (fun x => c2))
  (at level 100, c1 at next level, right associativity) : cxx_scope.
Notation "c1 ;; c2" := (bind c1 (fun _ => c2))
  (at level 100, right associativity) : cxx_scope.
Open Scope cxx_scope.

Fixpoint for_each {S A} (l : list A) (body : A -> M S unit) : M S unit :=
  match l with
  | [] => ret tt
  | x :: l' => body x ;; for_each l' body
  end.

(** [catch (const fs::filesystem_error&)] and [catch (const exception&)]. *)
Definition is_filesystem_error (e : exn) : bool :=
  match e with filesystem_error _ => true | _ => false end.
Definition is_std_exception (e : exn) : bool := true.

Definition strerror (ec : errc) : string :=
  match ec with
  | ENOENT => "No such file or directory"
  | ENOTDIR => "Not a directory"
  | EISDIR => "Is a directory"
  | EACCES => "Permission denied"
  | EIO => "Input/output error"
  | EEXIST => "File exists"
  | ENOTEMPTY => "Directory not empty"
  | EINVAL => "Invalid argument"
  | EBUSY => "Device or resource busy"
  end.

Definition what (e : exn) : string :=
  match e with
  | filesystem_error ec => "filesystem error: " ++ strerror ec
  | invalid_argument s => s
  | out_of_range s => s
  end.

(** ** Strings as the C++ library sees them *)

Module Cxx.

Definition INT_MIN : Z := -2147483648.
Definition INT_MAX : Z := 2147483647.

(** [isspace] in the C locale. *)
Definition isspace (c : ascii) : bool :=
  let n := nat_of_ascii c in
  ((n =? 32) || ((9 <=? n) && (n <=? 13)))%nat.

Definition isdigit (c : ascii) : bool :=
  let n := nat_of_ascii c in ((48 <=? n) && (n <=? 57))%nat.

Definition digit_value (c : ascii) : Z := (Z.of_nat (nat_of_ascii c) - 48)%Z.

Fixpoint skip_spaces (s : string) : string :=
  match s with
  | String c s' => if isspace c then skip_spaces s' else s
  | EmptyString => s
  end.

(** The digits at the front of [s], most significant first. *)
Fixpoint leading_digits (s : string) : list ascii :=
  match s with
  | String c s' => if isdigit c then c :: leading_digits s' else []
  | EmptyString => []
  end.

Definition digits_value (ds : list ascii) : Z :=
  fold_left (fun acc c => (10 * acc + digit_value c)%Z) ds 0%Z.

(** What [strtol] makes of [str] in base 10, and what [std::stoi] does with
    it: white space is skipped, then come an optional sign and the longest
    run of digits; no digit is [invalid_argument], a value that does not fit
    an [int] is [out_of_range].  What follows the digits is ignored. *)
Definition parse_int (str : string) : result Z :=
  let s1 := skip_spaces str in
  let '(negative, s2) :=
    match s1 with
    | String "-" r => (true, r)
    | String "+" r => (false, r)
    | _ => (false, s1)
    end in
  match leading_digits s2 with
  | [] => Throw (invalid_argument "stoi")
  | ds =>
      let v := if negative then (- digits_value ds)%Z else digits_value ds in
      if ((INT_MIN <=? v) && (v <=? INT_MAX))%Z then Ret v
      else Throw (out_of_range "stoi")
  end.

Definition stoi {S} (str : string) : M S Z := fun s => (parse_int str, s).

(** [s.find(pattern)]: the first position at which [pattern] occurs in [s],
    [None] for [string::npos]. *)
Fixpoint find (pattern s : string) : option nat :=
  if prefix pattern s then Some 0
  else match s with
       | EmptyString => None
       | String _ s' => option_map S (find pattern s')
       end.

(** [path::filename()]: what follows the last separator. *)
Fixpoint filename_from (p : string) (cur : string) : string :=
  match p with
  | EmptyString => cur
  | String c p' =>
      if Ascii.eqb c "/" then filename_from p' ""
      else filename_from p' (cur ++ String c EmptyString)
  end.

Definition filename (p : string) : string := filename_from p "".

Fixpoint ends_with_separator (p : string) : bool :=
  match p with
  | EmptyString => false
  | String c EmptyString => Ascii.eqb c "/"
  | String _ p' => ends_with_separator p'
  end.

(** [path::operator/] for a relative right-hand side. *)
Definition path_append (p name : string) : string :=
  if String.eqb p "" then name
  else if ends_with_separator p then p ++ name
  else p ++ "/" ++ name.

(** The names between the separators of [p]; empty names (a leading,
    doubled or trailing separator) are dropped. *)
Fixpoint split_path (p : string) (cur : string) : list string :=
  match p with
  | EmptyString => if String.eqb cur "" then [] else [cur]
  | String c p' =>
      if Ascii.eqb c "/"
      then (if String.eqb cur "" then split_path p' ""
            else cur :: split_path p' "")
      else split_path p' (cur ++ String c EmptyString)
  end.

Definition components (p : string) : list string := split_path p "".

End Cxx.

(** ** The operating system: a directory tree

    What the process may do with a directory is its [access]: list it,
    change its entries and pass through it ([Readable], mode rwx); list it
    and pass through it but not change it ([ReadOnly], r-x); change it and
    pass through it but not list it ([WriteOnly], -wx); nothing, every
    access being refused with EACCES ([PermissionDenied]); or nothing
    because the device fails ([IOFailure], an I/O error).  Creating,
    removing and renaming an entry change the directory that holds it.
    Entries keep the order in which the system enumerates them.  Paths are
    resolved from the root, which is also the working directory; the names
    [.] and [..] are not interpreted.  Files carry no permission of their
    own, and the tree has no symbolic or hard links: every entry has one
    name. *)

Module Os.

Inductive access := Readable | ReadOnly | WriteOnly | PermissionDenied | IOFailure.

(** The directory can be opened for listing. *)
Definition can_open (a : access) : bool :=
  match a with Readable | ReadOnly => true | _ => false end.

(** Entries can be added to the directory and removed from it. *)
Definition can_write (a : access) : bool :=
  match a with Readable | WriteOnly => true | _ => false end.

(** The error of opening a directory that cannot be opened. *)
Definition refusal (a : access) : errc :=
  match a with IOFailure => EIO | _ => EACCES end.

#[warnings="-register-all"]
Inductive node :=
| RegularFile
| Other
| Directory (a : access) (entries : list (string * node)).

Definition is_dir (n : node) : bool :=
  match n with Directory _ _ => true | _ => false end.
Definition is_regular (n : node) : bool :=
  match n with RegularFile => true | _ => false end.

Fixpoint assoc (name : string) (es : list (string * node)) : option node :=
  match es with
  | [] => None
  | (k, m) :: es' => if String.eqb k name then Some m else assoc name es'
  end.

Fixpoint update_entry (name : string) (f : node -> node)
         (es : list (string * node)) : list (string * node) :=
  match es with
  | [] => []
  | (k, m) :: es' =>
      if String.eqb k name then (k, f m) :: es'
      else (k, m) :: update_entry name f es'
  end.

Definition put_entry (name : string) (m : node) (es : list (string * node))
  : list (string * node) :=
  match assoc name es with
  | Some _ => update_entry name (fun _ => m) es
  | None => es ++ [(name, m)]
  end.

Definition drop_entry (name : string) (es : list (string * node))
  : list (string * node) :=
  filter (fun e => negb (String.eqb (fst e) name)) es.

(** [stat] along the names [cs], from [n]. *)
Fixpoint status (cs : list string) (n : node) : result (option node) :=
  match cs with
  | [] => Ret (Some n)
  | c :: cs' =>
      match n with
      | Directory PermissionDenied _ => Throw (filesystem_error EACCES)
      | Directory IOFailure _ => Throw (filesystem_error EIO)
      | Directory _ es =>
          match assoc c es with
          | Some m => status cs' m
          | None => Ret None
          end
      | _ => Ret None
      end
  end.

(** Apply [g] to the entries of the directory reached by [cs]. *)
Fixpoint alter_dir (cs : list string)
         (g : list (string * node) -> list (string * node)) (n : node) : node :=
  match n with
  | Directory a es =>
      match cs with
      | [] => Directory a (g es)
      | c :: cs' => Directory a (update_entry c (alter_dir cs' g) es)
      end
  | _ => n
  end.

Definition parent_of (cs : list string) : list string := removelast cs.
Definition name_of (cs : list string) : string := last cs "".

(** The directory reached by [cs] is there and its entries can be changed. *)
Definition writable (cs : list string) (n : node) : bool :=
  match status cs n with
  | Ret (Some (Directory a _)) => can_write a
  | _ => false
  end.

Definition stat (p : string) : M node (option node) :=
  if String.eqb p "" then ret None
  else fun n => (status (Cxx.components p) n, n).

Definition fs_error {A} (ec : errc) : M node A := throw (filesystem_error ec).

(** [fs::exists], [fs::is_directory], [fs::is_regular_file]. *)
Definition exists_ (p : string) : M node bool :=
  s <- stat p ;; ret (match s with Some _ => true | None => false end).

Definition is_directory (p : string) : M node bool :=
  s <- stat p ;; ret (match s with Some m => is_dir m | None => false end).

Definition is_regular_file (p : string) : M node bool :=
  s <- stat p ;; ret (match s with Some m => is_regular m | None => false end).

(** [std::ofstream file(p)] followed by [(bool)file]: open for writing,
    create or truncate.  A file that is there is opened; one that is not is
    created, which the directory must allow.  It does not throw. *)
Definition ofstream (p : string) : M node bool :=
  fun n =>
    let cs := Cxx.components p in
    match cs with
    | [] => (Ret false, n)
    | _ =>
        match status (parent_of cs) n with
        | Ret (Some (Directory PermissionDenied _))
        | Ret (Some (Directory IOFailure _)) => (Ret false, n)
        | Ret (Some (Directory a es)) =>
            match assoc (name_of cs) es with
            | None =>
                if can_write a then
                  (Ret true,
                   alter_dir (parent_of cs) (put_entry (name_of cs) RegularFile) n)
                else (Ret false, n)
            | Some (Directory _ _) => (Ret false, n)
            | Some _ => (Ret true, n)
            end
        | _ => (Ret false, n)
        end
    end.

(** [fs::remove]: a file or an empty directory; [false] when nothing is
    there.  The directory that holds the entry must allow the change. *)
Definition remove (p : string) : M node bool :=
  let cs := Cxx.components p in
  s <- stat p ;;
  match s with
  | None => ret false
  | Some m =>
      match cs with
      | [] => fs_error EBUSY
      | _ =>
          w <- gets (writable (parent_of cs)) ;;
          if negb w then fs_error EACCES else
          match m with
          | Directory _ (_ :: _) => fs_error ENOTEMPTY
          | _ => modify (alter_dir (parent_of cs) (drop_entry (name_of cs))) ;;
                 ret true
          end
      end
  end.

(** [fs::create_directory]: [false] when the directory is already there, an
    error when something else is, when the parent is missing or when it
    does not allow the change. *)
Definition create_directory (p : string) : M node bool :=
  let cs := Cxx.components p in
  if String.eqb p "" then fs_error ENOENT else
  s <- stat p ;;
  match s with
  | Some (Directory _ _) => ret false
  | Some _ => fs_error EEXIST
  | None =>
      ps <- (fun n => (status (parent_of cs) n, n)) ;;
      match ps with
      | Some (Directory a _) =>
          if can_write a then
            modify (alter_dir (parent_of cs)
                              (put_entry (name_of cs) (Directory Readable []))) ;;
            ret true
          else fs_error EACCES
      | Some _ => fs_error ENOTDIR
      | None => fs_error ENOENT
      end
  end.

(** What [fs::remove_all] deletes below [n], in enumeration order, until a
    directory cannot be opened or an entry cannot be removed because its
    directory does not allow it: what is left of [n], the number of entries
    deleted and the error met. *)
Section PurgeEntries.
Variable purge_node : node -> node * nat * option errc.
Variable may_remove : bool.

Fixpoint purge_entries (es : list (string * node))
  : list (string * node) * nat * option errc :=
  match es with
  | [] => ([], 0, None)
  | (name, m) :: rest =>
      match purge_node m with
      | (m', k, Some e) => ((name, m') :: rest, k, Some e)
      | (m', k, None) =>
          if may_remove then
            let '(rest', k', err) := purge_entries rest in
            (rest', k + 1 + k', err)
          else ((name, m') :: rest, k, Some EACCES)
      end
  end.
End PurgeEntries.

Fixpoint purge (n : node) : node * nat * option errc :=
  match n with
  | Directory a es =>
      if can_open a then
        let '(es', k, err) := purge_entries purge (can_write a) es in
        (Directory a es', k, err)
      else (n, 0, Some (refusal a))
  | _ => (n, 0, None)
  end.

(** [fs::remove_all]: the number of entries deleted, 0 when nothing is
    there. *)
Definition remove_all (p : string) : M node nat :=
  let cs := Cxx.components p in
  s <- stat p ;;
  match s with
  | None => ret 0
  | Some m =>
      let '(m', k, err) := purge m in
      match cs, err with
      | [], Some e => modify (fun _ => m') ;; fs_error e
      | [], None => modify (fun _ => m') ;; fs_error EBUSY
      | _, Some e =>
          modify (alter_dir (parent_of cs)
                            (update_entry (name_of cs) (fun _ => m'))) ;;
          fs_error e
      | _, None =>
          w <- gets (writable (parent_of cs)) ;;
          if negb w then
            modify (alter_dir (parent_of cs)
                              (update_entry (name_of cs) (fun _ => m'))) ;;
            fs_error EACCES
          else
            modify (alter_dir (parent_of cs) (drop_entry (name_of cs))) ;;
            ret (k + 1)
      end
  end.

Fixpoint is_prefix (a b : list string) : bool :=
  match a, b with
  | [], _ => true
  | x :: a', y :: b' => String.eqb x y && is_prefix a' b'
  | _ :: _, [] => false
  end.

Definition same_names (a b : list string) : bool :=
  is_prefix a b && is_prefix b a.

(** A directory that moves to another directory must itself allow the
    change (its entry [..] is rewritten). *)
Definition may_move (m : node) (from to : list string) : bool :=
  match m with
  | Directory a _ => same_names from to || can_write a
  | _ => true
  end.

(** [fs::rename], as POSIX [rename]: both directories must allow the
    change; the target is replaced when it is a file under a file or an
    empty directory under a directory. *)
Definition rename (old_p new_p : string) : M node unit :=
  let co := Cxx.components old_p in
  let cn := Cxx.components new_p in
  if String.eqb new_p "" then fs_error ENOENT else
  s <- stat old_p ;;
  match s with
  | None => fs_error ENOENT
  | Some m =>
      match co, cn with
      | [], _ | _, [] => fs_error EBUSY
      | _, _ =>
          if same_names co cn then ret tt else
          ps <- (fun n => (status (parent_of cn) n, n)) ;;
          match ps with
          | Some (Directory PermissionDenied _)
          | Some (Directory IOFailure _) => fs_error EACCES
          | Some (Directory a _) =>
              w <- gets (writable (parent_of co)) ;;
              if negb (w && can_write a && may_move m (parent_of co) (parent_of cn))
              then fs_error EACCES else
              if is_dir m && is_prefix co cn then fs_error EINVAL else
              t <- (fun n => (status cn n, n)) ;;
              match t, m with
              | Some (Directory _ (_ :: _)), Directory _ _ => fs_error ENOTEMPTY
              | Some (Directory _ _), Directory _ _
              | None, _ =>
                  modify (fun n =>
                    alter_dir (parent_of cn) (put_entry (name_of cn) m)
                      (alter_dir (parent_of co) (drop_entry (name_of co)) n))
              | Some (Directory _ _), _ => fs_error EISDIR
              | Some _, Directory _ _ => fs_error ENOTDIR
              | Some _, _ =>
                  modify (fun n =>
                    alter_dir (parent_of cn) (put_entry (name_of cn) m)
                      (alter_dir (parent_of co) (drop_entry (name_of co)) n))
              end
          | Some _ => fs_error ENOTDIR
          | None => fs_error ENOENT
          end
      end
  end.

(** [fs::directory_iterator(p)]: the paths of the entries of [p].  Opening
    the directory is what can fail. *)
Definition directory_iterator (p : string) : M node (list string) :=
  s <- stat p ;;
  match s with
  | Some (Directory a es) =>
      if can_open a then ret (map (fun e => Cxx.path_append p (fst e)) es)
      else fs_error (refusal a)
  | Some _ => fs_error ENOTDIR
  | None => fs_error ENOENT
  end.

(** A recursive iteration: the entries it yields, and the error its
    increment throws after the last of them, if it does. *)
Definition dirstream : Type := list string * option errc.

(** The walk of [fs::recursive_directory_iterator] below the directory [n]
    at path [p].  Every entry is yielded before the walk tries to open it;
    with [skip_permission_denied] a directory that refuses with EACCES is
    passed over. *)
Section WalkEntries.
Variable walk : string -> node -> dirstream.

Fixpoint walk_entries (p : string) (es : list (string * node)) : dirstream :=
  match es with
  | [] => ([], None)
  | (name, m) :: rest =>
      let q := Cxx.path_append p name in
      match walk q m with
      | (sub, Some e) => (q :: sub, Some e)
      | (sub, None) =>
          let '(more, err) := walk_entries p rest in
          (q :: sub ++ more, err)
      end
  end.
End WalkEntries.

Fixpoint descend (skip_permission_denied : bool) (p : string) (n : node)
  : dirstream :=
  match n with
  | Directory IOFailure _ => ([], Some EIO)
  | Directory a es =>
      if can_open a then walk_entries (descend skip_permission_denied) p es
      else if skip_permission_denied then ([], None) else ([], Some EACCES)
  | _ => ([], None)
  end.

(** No directory that the walk below [n] opens fails with an I/O error. *)
Fixpoint no_io_failure (n : node) : bool :=
  match n with
  | Directory IOFailure _ => false
  | Directory a es =>
      if can_open a then forallb (fun e => no_io_failure (snd e)) es else true
  | _ => true
  end.

(** No directory that the walk below [n] opens refuses with EACCES. *)
Fixpoint no_permission_denied (n : node) : bool :=
  match n with
  | Directory IOFailure _ => true
  | Directory a es =>
      if can_open a then forallb (fun e => no_permission_denied (snd e)) es
      else false
  | _ => true
  end.

Definition recursive_directory_iterator (p : string)
           (skip_permission_denied : bool) : M node dirstream :=
  s <- stat p ;;
  match s with
  | Some (Directory a es) => ret (descend skip_permission_denied p (Directory a es))
  | Some _ => fs_error ENOTDIR
  | None => fs_error ENOENT
  end.

End Os.

(** ** The process: directory tree, standard streams, shell *)

Record istream := {
  buffer : string;     (* what is still to be read *)
  eofbit : bool;
  failbit : bool
}.

Definition good (i : istream) : bool := negb (eofbit i) && negb (failbit i).

Record world := {
  root : Os.node;
  cin : istream;
  cout : list string;
  cerr : list string;
  shell : list string;      (* the commands passed to [system] *)
  indeterminate : ascii     (* what an uninitialised [char] holds *)
}.

Definition set_root (n : Os.node) (w : world) : world :=
  {| root := n; cin := cin w; cout := cout w; cerr := cerr w;
     shell := shell w; indeterminate := indeterminate w |}.
Definition set_cin (i : istream) (w : world) : world :=
  {| root := root w; cin := i; cout := cout w; cerr := cerr w;
     shell := shell w; indeterminate := indeterminate w |}.
Definition put_cout (s : string) (w : world) : world :=
  {| root := root w; cin := cin w; cout := (cout w ++ [s])%list; cerr := cerr w;
     shell := shell w; indeterminate := indeterminate w |}.
Definition put_cerr (s : string) (w : world) : world :=
  {| root := root w; cin := cin w; cout := cout w; cerr := (cerr w ++ [s])%list;
     shell := shell w; indeterminate := indeterminate w |}.
Definition put_shell (s : string) (w : world) : world :=
  {| root := root w; cin := cin w; cout := cout w; cerr := cerr w;
     shell := (shell w ++ [s])%list; indeterminate := indeterminate w |}.

(** A state that contains the world: the world itself, or the world with the
    vector a reference parameter is bound to. *)
Class Process (S : Type) := {
  world_of : S -> world;
  with_world : world -> S -> S
}.

#[export] Instance world_process : Process world :=
  {| world_of := fun w => w; with_world := fun w _ => w |}.

#[export] Instance world_with_vector (V : Type) : Process (world * V) :=
  {| world_of := fst; with_world := fun w s => (w, snd s) |}.

Definition in_world {S} `{Process S} {A} (m : M world A) : M S A :=
  fun s => let (r, w') := m (world_of s) in (r, with_world w' s).

Definition on_root {A} (m : M Os.node A) : M world A :=
  fun w => let (r, n') := m (root w) in (r, set_root n' w).

Definition endl : string := String (ascii_of_nat 10) EmptyString.

(** [cout << s] and [cerr << s]. *)
Definition cout_put {S} `{Process S} (s : string) : M S unit :=
  in_world (modify (put_cout s)).
Definition cerr_put {S} `{Process S} (s : string) : M S unit :=
  in_world (modify (put_cerr s)).
(** [system(cmd)]. *)
Definition system {S} `{Process S} (cmd : string) : M S unit :=
  in_world (modify (put_shell cmd)).

(** [vector::push_back] on the vector of the state. *)
Definition push_back {A} (x : A) : M (world * list A) unit :=
  modify (fun s => (fst s, (snd s ++ [x])%list)).
Definition vector_empty {A} : M (world * list A) bool :=
  gets (fun s => match snd s with [] => true | _ => false end).

(** Run [f] on the world and a local variable of the caller, [v] (a vector
    passed by reference, a flag of the function); the variable comes back
    with the result. *)
Definition with_local {A V} (f : M (world * V) A) (v : V)
  : M world (A * V) :=
  fun w => match f (w, v) with
           | (Ret a, (w', v')) => (Ret (a, v'), w')
           | (Throw e, (w', _)) => (Throw e, w')
           end.

(** [std::filesystem], run on the tree of the world. *)
Module fs.
Section Lifted.
Context {S : Type} `{Process S}.
Definition exists_ (p : string) : M S bool := in_world (on_root (Os.exists_ p)).
Definition is_directory (p : string) : M S bool :=
  in_world (on_root (Os.is_directory p)).
Definition is_regular_file (p : string) : M S bool :=
  in_world (on_root (Os.is_regular_file p)).
Definition ofstream (p : string) : M S bool := in_world (on_root (Os.ofstream p)).
Definition remove (p : string) : M S bool := in_world (on_root (Os.remove p)).
Definition create_directory (p : string) : M S bool :=
  in_world (on_root (Os.create_directory p)).
Definition remove_all (p : string) : M S nat :=
  in_world (on_root (Os.remove_all p)).
Definition rename (old_p new_p : string) : M S unit :=
  in_world (on_root (Os.rename old_p new_p)).
Definition directory_iterator (p : string) : M S (list string) :=
  in_world (on_root (Os.directory_iterator p)).
Definition recursive_directory_iterator (p : string) (skip : bool)
  : M S Os.dirstream :=
  in_world (on_root (Os.recursive_directory_iterator p skip)).
(** The range-based [for] over a recursive iterator. *)
Definition range_for (ds : Os.dirstream) (body : string -> M S unit) : M S unit :=
  for_each (fst ds) body ;;
  match snd ds with
  | Some ec => throw (filesystem_error ec)
  | None => ret tt
  end.
End Lifted.
End fs.

(** ** BaseFileManager.cpp: the facade that returns status codes *)

Module Facade.
Open Scope Z_scope.

Definition listDirectoryContents (path : string) : M (world * list string) Z :=
  try_catch
    (e <- fs.exists_ path ;;
     if negb e then
       cerr_put ("Error: Path does not exist." ++ endl) ;; ret 404
     else
     d <- fs.is_directory path ;;
     if negb d then
       cerr_put ("Error: Path is not a directory." ++ endl) ;; ret 400
     else
     entries <- fs.directory_iterator path ;;
     for_each entries (fun entry => push_back entry) ;;
     ret 200)
    is_filesystem_error
    (fun e =>
       cerr_put ("Error accessing directory: " ++ what e ++ endl) ;; ret 500).

Definition createFile (path : string) : M world Z :=
  try_catch
    (file <- fs.ofstream path ;;
     if negb file then
       cerr_put ("Error: Unable to create file." ++ endl) ;; ret 500
     else ret 200)
    is_std_exception
    (fun e => cerr_put ("Error creating file: " ++ what e ++ endl) ;; ret 500).

Definition deleteFile (path : string) : M world Z :=
  try_catch
    (e <- fs.exists_ path ;;
     if negb e then
       cerr_put ("Error: File does not exist." ++ endl) ;; ret 404
     else
     r <- fs.is_regular_file path ;;
     if negb r then
       cerr_put ("Error: Path is not a regular file." ++ endl) ;; ret 400
     else
     fs.remove path ;;
     ret 200)
    is_filesystem_error
    (fun e => cerr_put ("Error deleting file: " ++ what e ++ endl) ;; ret 500).

Definition createDirectory (path : string) : M world Z :=
  try_catch
    (e <- fs.exists_ path ;;
     if e then
       cerr_put ("Error: Directory already exists." ++ endl) ;; ret 400
     else
     fs.create_directory path ;;
     ret 200)
    is_filesystem_error
    (fun e =>
       cerr_put ("Error creating directory: " ++ what e ++ endl) ;; ret 500).

Definition deleteDirectory (path : string) : M world Z :=
  try_catch
    (e <- fs.exists_ path ;;
     if negb e then
       cerr_put ("Error: Directory does not exist." ++ endl) ;; ret 404
     else
     d <- fs.is_directory path ;;
     if negb d then
       cerr_put ("Error: Path is not a directory." ++ endl) ;; ret 400
     else
     fs.remove_all path ;;
     ret 200)
    is_filesystem_error
    (fun e =>
       cerr_put ("Error deleting directory: " ++ what e ++ endl) ;; ret 500).

Definition rename (oldPath newPath : string) : M world Z :=
  try_catch
    (e <- fs.exists_ oldPath ;;
     if negb e then
       cerr_put ("Error: Source path does not exist." ++ endl) ;; ret 404
     else
     fs.rename oldPath newPath ;;
     ret 200)
    is_filesystem_error
    (fun e => cerr_put (what e ++ endl) ;; ret 500).

Definition searchFiles (path pattern : string) : M (world * list string) Z :=
  try_catch
    (e <- fs.exists_ path ;;
     if negb e then
       cerr_put ("Error: Directory does not exist." ++ endl) ;; ret 404
     else
     d <- fs.is_directory path ;;
     if negb d then
       cerr_put ("Error: Path is not a directory." ++ endl) ;; ret 400
     else
     it <- fs.recursive_directory_iterator path true ;;
     fs.range_for it (fun entry =>
       match Cxx.find pattern (Cxx.filename entry) with
       | Some _ => push_back entry
       | None => ret tt
       end) ;;
     empty <- vector_empty ;;
     ret (if empty then 204 else 200))
    is_filesystem_error
    (fun e => cerr_put (what e ++ endl) ;; ret 500).

End Facade.

(** ** Reading the console *)

Module Console.

(** The text up to the first newline, what follows it, and whether a
    newline was found. *)
Fixpoint read_line (s : string) : string * string * bool :=
  match s with
  | EmptyString => (EmptyString, EmptyString, false)
  | String c s' =>
      if Ascii.eqb c (ascii_of_nat 10) then (EmptyString, s', true)
      else let '(line, rest, found) := read_line s' in
           (String c line, rest, found)
  end.

(** [getline(in, str)]: when the stream is not good the call sets failbit
    and leaves [str] alone.  Otherwise [str] is replaced by the text up to
    the newline, which is consumed; reaching the end of the input sets
    eofbit, and failbit too when nothing at all was read. *)
Definition getline_from (i : istream) (str : string) : istream * string :=
  if good i then
    match read_line (buffer i) with
    | (line, rest, true) =>
        ({| buffer := rest; eofbit := false; failbit := false |}, line)
    | (line, _, false) =>
        ({| buffer := ""; eofbit := true;
            failbit := String.eqb line "" |}, line)
    end
  else ({| buffer := buffer i; eofbit := eofbit i; failbit := true |}, str).

(** [in >> c] for a [char]: skips white space and takes one character;
    [None] when there is none, and then [c] is not written. *)
Definition extract_char (i : istream) : istream * option ascii :=
  if good i then
    match Cxx.skip_spaces (buffer i) with
    | String c rest =>
        ({| buffer := rest; eofbit := false; failbit := false |}, Some c)
    | EmptyString => ({| buffer := ""; eofbit := true; failbit := true |}, None)
    end
  else ({| buffer := buffer i; eofbit := eofbit i; failbit := true |}, None).

(** [in.ignore()]: drops one character. *)
Definition ignore_from (i : istream) : istream :=
  if good i then
    match buffer i with
    | String _ rest => {| buffer := rest; eofbit := false; failbit := false |}
    | EmptyString => {| buffer := ""; eofbit := true; failbit := false |}
    end
  else {| buffer := buffer i; eofbit := eofbit i; failbit := true |}.

(** [getline(cin, str)]: the new value of [str]. *)
Definition getline (str : string) : M world string :=
  fun w => let (i, line) := getline_from (cin w) str in (Ret line, set_cin i w).

(** [char c; cin >> c;]: the value of [c] afterwards. *)
Definition read_char : M world ascii :=
  fun w => let (i, c) := extract_char (cin w) in
           (Ret (match c with Some c => c | None => indeterminate w end),
            set_cin i w).

Definition ignore : M world unit :=
  modify (fun w => set_cin (ignore_from (cin w)) w).

(** The character [read_char] leaves in the variable. *)
Definition answer (w : world) : ascii :=
  match snd (extract_char (cin w)) with
  | Some c => c
  | None => indeterminate w
  end.

(** The world once a line has been read into a fresh string. *)
Definition after_line (w : world) : world :=
  set_cin (fst (getline_from (cin w) "")) w.

End Console.

(** ** FileManagerUI.cpp: the console controller *)

Module UI.
Import Console.
Open Scope Z_scope.

Definition to_string (n : Z) : string := DecimalString.NilZero.string_of_int (Z.to_int n).

Definition confirmed (confirm : ascii) : bool :=
  Ascii.eqb confirm "y" || Ascii.eqb confirm "Y".

Definition handleStatus (statusCode : Z) : M world unit :=
  match statusCode with
  | 200 => cout_put (endl ++ "Operation successful." ++ endl)
  | 204 => cout_put (endl ++ "No files found matching the criteria." ++ endl)
  | 400 =>
      cout_put (endl ++ "Error: Invalid path or resource already exists." ++ endl)
  | 404 => cout_put (endl ++ "Error: File or directory not found." ++ endl)
  | 500 =>
      cout_put (endl ++
        "Error: System error occurred. Please check your input or permissions."
        ++ endl)
  | _ =>
      cout_put (endl ++ "Unknown status code: " ++ to_string statusCode ++ endl)
  end.

Definition createFile : M world unit :=
  cout_put (endl ++ "Enter file path: ") ;;
  path <- getline "" ;;
  statusCode <- Facade.createFile path ;;
  handleStatus statusCode.

Definition deleteFile : M world unit :=
  cout_put (endl ++ "Enter file path: ") ;;
  path <- getline "" ;;
  cout_put (endl ++ "Are you sure you want to delete this file? (y/n): ") ;;
  confirm <- read_char ;;
  ignore ;;
  if confirmed confirm then
    statusCode <- Facade.deleteFile path ;;
    handleStatus statusCode
  else cout_put (endl ++ "Operation canceled." ++ endl).

Definition createDirectory : M world unit :=
  cout_put (endl ++ "Enter directory path: ") ;;
  path <- getline "" ;;
  statusCode <- Facade.createDirectory path ;;
  handleStatus statusCode.

Definition deleteDirectory : M world unit :=
  cout_put (endl ++ "Enter directory path: ") ;;
  path <- getline "" ;;
  cout_put (endl ++ "Are you sure you want to delete this directory? (y/n): ") ;;
  confirm <- read_char ;;
  ignore ;;
  if confirmed confirm then
    statusCode <- Facade.deleteDirectory path ;;
    handleStatus statusCode
  else cout_put (endl ++ "Operation canceled." ++ endl).

Definition listDirectoryContents : M world unit :=
  cout_put (endl ++ "Enter directory path: ") ;;
  path <- getline "" ;;
  r <- with_local (Facade.listDirectoryContents path) [] ;;
  let '(statusCode, contents) := r in
  handleStatus statusCode ;;
  if statusCode =? 200 then
    cout_put (endl ++ "Directory Contents:" ++ endl) ;;
    for_each contents (fun item => cout_put ("- " ++ item ++ endl))
  else ret tt.

Definition renameItem : M world unit :=
  cout_put (endl ++ "Enter current file/directory path: ") ;;
  oldPath <- getline "" ;;
  cout_put "Enter new name for the file/directory: " ;;
  newPath <- getline "" ;;
  statusCode <- Facade.rename oldPath newPath ;;
  handleStatus statusCode.

Definition searchFiles : M world unit :=
  cout_put (endl ++ "Enter directory path to search: ") ;;
  path <- getline "" ;;
  cout_put "Enter filename pattern to search for: " ;;
  pattern <- getline "" ;;
  r <- with_local (Facade.searchFiles path pattern) [] ;;
  let '(statusCode, results) := r in
  handleStatus statusCode ;;
  if statusCode =? 200 then
    cout_put (endl ++ "Search Results:" ++ endl) ;;
    for_each results (fun item => cout_put ("- " ++ item ++ endl))
  else ret tt.

(** Built for Windows ([main.cpp] includes [Windows.h]): the command is
    [cls]. *)
Definition clearConsoleWithConfirmation : M world unit :=
  cout_put (endl ++ "Are you sure you want to clear the console? (y/n): ") ;;
  confirm <- read_char ;;
  ignore ;;
  if confirmed confirm then
    system "cls" ;;
    cout_put (endl ++ "Console cleared." ++ endl)
  else cout_put (endl ++ "Operation canceled." ++ endl).

Definition processCommand (command : string) : M world unit :=
  selector <- Cxx.stoi command ;;
  match selector with
  | 1 => createFile
  | 2 => deleteFile
  | 3 => createDirectory
  | 4 => deleteDirectory
  | 5 => listDirectoryContents
  | 6 => renameItem
  | 7 => searchFiles
  | 8 => clearConsoleWithConfirmation
  | 9 => ret tt
  | _ => cout_put (endl ++ "Unknown command. Please try again." ++ endl)
  end.

Definition menu : string :=
  endl ++ "=== File Manager ===" ++ endl ++
  "1. Create File" ++ endl ++
  "2. Delete File" ++ endl ++
  "3. Create Directory" ++ endl ++
  "4. Delete Directory" ++ endl ++
  "5. List Directory Contents" ++ endl ++
  "6. Rename File/Directory" ++ endl ++
  "7. Search Files" ++ endl ++
  "8. Clear Console" ++ endl ++
  "9. Exit" ++ endl.

(** How one turn of [while (true)] ends. *)
Inductive flow := Continue | Break.

(** What the loop body does once the line is in [command]. *)
Definition dispatch (command : string) : M world flow :=
  if String.eqb command "9" then
    cout_put (endl ++ "Are you sure you want to exit? (y/n): ") ;;
    confirm <- read_char ;;
    ignore ;;
    if confirmed confirm then
      cout_put (endl ++ "Goodbye!" ++ endl) ;; ret Break
    else ret Continue
  else
    processCommand command ;; ret Continue.

(** One turn of the loop of [start]; [command] lives across the turns. *)
Definition turn (command : string) : M world (flow * string) :=
  cout_put menu ;;
  cout_put (endl ++ "Enter command: ") ;;
  command <- getline command ;;
  f <- dispatch command ;;
  ret (f, command).

(** [start], for at most [fuel] turns: [Some tt] when the loop was left by
    [break], [None] when the turns ran out. *)
Fixpoint start_from (fuel : nat) (command : string) : M world (option unit) :=
  match fuel with
  | O => ret None
  | S fuel' =>
      r <- turn command ;;
      match r with
      | (Break, _) => ret (Some tt)
      | (Continue, command') => start_from fuel' command'
      end
  end.

Definition start (fuel : nat) : M world (option unit) := start_from fuel "".

End UI.

(** ** FileManager.cpp: the facade that prints *)

Module Printing.

Definition quoted (s : string) : string :=
  String (ascii_of_nat 34) s ++ String (ascii_of_nat 34) EmptyString.

Definition invalid_directory {S} `{Process S} (path : string) : M S bool :=
  e <- fs.exists_ path ;;
  if negb e then ret true
  else d <- fs.is_directory path ;; ret (negb d).

Definition listDirectoryContents (path : string) : M world unit :=
  invalid <- invalid_directory path ;;
  if invalid then cerr_put ("Invalid directory path!" ++ endl)
  else
    entries <- fs.directory_iterator path ;;
    for_each entries (fun entry =>
      cout_put (quoted (Cxx.filename entry) ++ endl)).

Definition createFile (filePath : string) : M world unit :=
  file <- fs.ofstream filePath ;;
  if file then cout_put ("File created: " ++ filePath ++ endl)
  else cerr_put ("Error creating file: " ++ filePath ++ endl).

Definition deleteFile (filePath : string) : M world unit :=
  removed <- fs.remove filePath ;;
  if removed then cout_put ("File deleted: " ++ filePath ++ endl)
  else cerr_put ("Error deleting file: " ++ filePath ++ endl).

Definition createDirectory (dirPath : string) : M world unit :=
  created <- fs.create_directory dirPath ;;
  if created then cout_put ("Directory created: " ++ dirPath ++ endl)
  else cerr_put ("Error creating directory: " ++ dirPath ++ endl).

Definition deleteDirectory (dirPath : string) : M world unit :=
  count <- fs.remove_all dirPath ;;
  if negb (Nat.eqb count 0)
  then cout_put ("Directory deleted: " ++ dirPath ++ endl)
  else cerr_put ("Error deleting directory: " ++ dirPath ++ endl).

Definition rename (oldPath newPath : string) : M world unit :=
  try_catch
    (fs.rename oldPath newPath ;;
     cout_put ("Renamed from " ++ oldPath ++ " to " ++ newPath ++ endl))
    is_filesystem_error
    (fun e => cerr_put ("Error renaming: " ++ what e ++ endl)).

(** The local of the state is the flag [found]. *)
Definition searchFiles_body (directory query : string) : M (world * bool) unit :=
  invalid <- invalid_directory directory ;;
  if invalid then cerr_put ("Invalid directory path!" ++ endl)
  else
    it <- fs.recursive_directory_iterator directory false ;;
    fs.range_for it (fun entry =>
      match Cxx.find query (Cxx.filename entry) with
      | Some _ =>
          cout_put (quoted entry ++ endl) ;;
          modify (fun s => (fst s, true))
      | None => ret tt
      end) ;;
    found <- gets snd ;;
    if negb found then cout_put ("No files found matching: " ++ query ++ endl)
    else ret tt.

Definition searchFiles (directory query : string) : M world unit :=
  r <- with_local (searchFiles_body directory query) false ;;
  ret (fst r).

End Printing.

(** ** The facade contract and the vocabulary of the properties *)

Module Contract.
Open Scope Z_scope.

Definition Success : Z := 200.
Definition NoMatches : Z := 204.
Definition InvalidRequest : Z := 400.
Definition NotFound : Z := 404.
Definition InternalError : Z := 500.

(** [list(path)], here [listing], and [search(path, substring)] as the
    controller calls them: on a fresh, empty vector. *)
Definition listing (path : string) : M world (Z * list string) :=
  with_local (Facade.listDirectoryContents path) [].

Definition search (path substring : string) : M world (Z * list string) :=
  with_local (Facade.searchFiles path substring) [].

(** A file name: not empty, without separator. *)
Fixpoint no_separator (s : string) : bool :=
  match s with
  | EmptyString => true
  | String c s' => negb (Ascii.eqb c "/") && no_separator s'
  end.

Definition is_name (s : string) : bool :=
  negb (String.eqb s "") && no_separator s.

(** [under p n e]: [e] is the path of an entry of the directory [n] at path
    [p], or of a directory below it that can be opened. *)
Inductive under : string -> Os.node -> string -> Prop :=
| under_entry p a es name m :
    Os.can_open a = true ->
    In (name, m) es ->
    under p (Os.Directory a es) (Cxx.path_append p name)
| under_subdirectory p a es name m e :
    Os.can_open a = true ->
    In (name, m) es ->
    under (Cxx.path_append p name) m e ->
    under p (Os.Directory a es) e.

(** [D] names the directory [n] in the world [w]. *)
Definition directory_at (w : world) (D : string) (n : Os.node) : Prop :=
  Os.stat D (root w) = (Ret (Some n), root w) /\ Os.is_dir n = true.

(** The entries among [entries] whose file name contains [pattern]. *)
Definition matching (pattern : string) (entries : list string) : list string :=
  filter (fun entry =>
            match Cxx.find pattern (Cxx.filename entry) with
            | Some _ => true
            | None => false
            end) entries.

(** [s] occurs in [t]: [t] is [a ++ s ++ b]. *)
Definition occurs_in (s t : string) : Prop :=
  exists a b : string, t = a ++ s ++ b.

(** A status code that reports success, with or without matches. *)
Definition succeeded (status : Z) : bool := (status =? 200) || (status =? 204).

(** What a run of a printing operation reports: success unless it wrote to
    [cerr] or ended by an exception. *)
Definition reports_success (before : world) (run : result unit * world) : bool :=
  match fst run with
  | Ret _ => Nat.eqb (List.length (cerr (snd run))) (List.length (cerr before))
  | Throw _ => false
  end.

(** The status and the world of a run that also had a vector. *)
Definition on_world {V} (run : result Z * (world * V)) : result Z * world :=
  (fst run, fst (snd run)).

(** What [stat] found is a directory whose walk meets a directory that
    refuses with EACCES. *)
Definition denied_below (found : result (option Os.node)) : bool :=
  match found with
  | Ret (Some m) => negb (Os.no_permission_denied m)
  | _ => false
  end.

(** The two facades agree on a run from [w]: the same tree afterwards, and
    success on both sides or on neither. *)
Definition agree (w : world) (coded : result Z * world)
           (printed : result unit * world) : Prop :=
  root (snd coded) = root (snd printed) /\
  (match fst coded with Ret status => succeeded status | Throw _ => false end)
  = reports_success w printed.

(** What the controller prints. *)
Definition unknown_command : string :=
  endl ++ "Unknown command. Please try again." ++ endl.
Definition operation_canceled : string :=
  endl ++ "Operation canceled." ++ endl.
Definition enter_file_path : string := endl ++ "Enter file path: ".
Definition enter_directory_path : string := endl ++ "Enter directory path: ".
Definition sure_delete_file : string :=
  endl ++ "Are you sure you want to delete this file? (y/n): ".
Definition sure_delete_directory : string :=
  endl ++ "Are you sure you want to delete this directory? (y/n): ".
Definition sure_clear : string :=
  endl ++ "Are you sure you want to clear the console? (y/n): ".
Definition sure_exit : string :=
  endl ++ "Are you sure you want to exit? (y/n): ".
Definition goodbye : string := endl ++ "Goodbye!" ++ endl.

(** A confirmation other than [y] and [Y]. *)
Definition refuses (c : ascii) : Prop := c <> "y"%char /\ c <> "Y"%char.

(** The operation that the menu offers under the number [k], 1 to 8. *)
Definition menu_entry (k : Z) : M world unit :=
  match k with
  | 1 => UI.createFile
  | 2 => UI.deleteFile
  | 3 => UI.createDirectory
  | 4 => UI.deleteDirectory
  | 5 => UI.listDirectoryContents
  | 6 => UI.renameItem
  | 7 => UI.searchFiles
  | 8 => UI.clearConsoleWithConfirmation
  | _ => ret tt
  end.

(** [w'] is [w] but for what was read from [cin] and for [printed], added
    to [cout]: same tree, same [cerr], no shell command run. *)
Definition only_printed (w w' : world) (printed : list string) : Prop :=
  root w' = root w /\ cerr w' = cerr w /\ shell w' = shell w /\
  cout w' = (cout w ++ printed)%list.

End Contract.

(** ** A small world for the examples *)

Module Examples.
Import Os.

(** [/home] holds [notes.txt], [docs/cv.txt], a pipe and a directory
    [private] that refuses to be opened. *)
Definition home : node :=
  Directory Readable
    [("notes.txt", RegularFile);
     ("docs", Directory Readable [("cv.txt", RegularFile)]);
     ("pipe", Other);
     ("private", Directory PermissionDenied [("secret.txt", RegularFile)])].

(** [/tmp/t] holds [a.txt], [b.log], [sub/c.txt], a directory [locked]
    that refuses to be opened and a directory [broken] that fails with an
    I/O error; [/e] is an empty directory. *)
Definition tree : node :=
  Directory Readable
    [("tmp", Directory Readable
       [("t", Directory Readable
          [("a.txt", RegularFile);
           ("b.log", RegularFile);
           ("sub", Directory Readable [("c.txt", RegularFile)]);
           ("locked", Directory PermissionDenied [("z.txt", RegularFile)]);
           ("broken", Directory IOFailure [])])]);
     ("e", Directory Readable []);
     ("home", home)].

(** The world with [tree] and the text [input] waiting on [cin]. *)
Definition world_with (input : string) : world :=
  {| root := tree;
     cin := {| buffer := input; eofbit := false; failbit := false |};
     cout := []; cerr := []; shell := [];
     indeterminate := "000"%char |}.

Definition line (s : string) : string := s ++ endl.

(** A tree with guarded directories: [/ro] (mode r-x) holds [f.txt] and
    the directory [d] with [g.txt], and can be listed but not changed;
    [/wo] (mode -wx) is empty and can be changed but not listed; [/box]
    holds the directory [in] and can be changed; [/movable] (mode r-x)
    holds the directory [k]; [/none] (mode ---) holds [x/y.txt]. *)
Definition guarded : node :=
  Directory Readable
    [("ro", Directory ReadOnly
       [("f.txt", RegularFile);
        ("d", Directory Readable [("g.txt", RegularFile)])]);
     ("wo", Directory WriteOnly []);
     ("box", Directory Readable [("in", Directory Readable [])]);
     ("movable", Directory ReadOnly [("k", Directory Readable [])]);
     ("none", Directory PermissionDenied
        [("x", Directory Readable [("y.txt", RegularFile)])])].

Definition guarded_world : world :=
  {| root := guarded;
     cin := {| buffer := ""; eofbit := false; failbit := false |};
     cout := []; cerr := []; shell := [];
     indeterminate := "000"%char |}.

End Examples.

(** ** Formatted input: [cin >> int] and [cin >> string] *)

Module Formatted.

Fixpoint skip_digits (s : string) : string :=
  match s with
  | String c s' => if Cxx.isdigit c then skip_digits s' else s
  | EmptyString => s
  end.

(** The characters of [s] up to the first white space, and the rest. *)
Fixpoint read_word (s : string) : string * string :=
  match s with
  | EmptyString => (EmptyString, EmptyString)
  | String c s' =>
      if Cxx.isspace c then (EmptyString, s)
      else let (word, rest) := read_word s' in (String c word, rest)
  end.

Definition at_end (s : string) : bool :=
  match s with EmptyString => true | _ => false end.

(** [in >> n] for an [int], as the standard has it since C++11.  A stream
    that is not good, or that ends in the white space skipped, sets failbit
    and leaves [n] alone.  Otherwise an optional sign and the digits that
    follow are taken: without a digit [n] becomes 0 and failbit is set; a
    value outside [int] is clamped and failbit is set. *)
Definition extract_int (i : istream) (n : Z) : istream * Z :=
  if good i then
    match Cxx.skip_spaces (buffer i) with
    | EmptyString => ({| buffer := ""; eofbit := true; failbit := true |}, n)
    | s1 =>
        let '(negative, s2) :=
          match s1 with
          | String "-" r => (true, r)
          | String "+" r => (false, r)
          | _ => (false, s1)
          end in
        let rest := skip_digits s2 in
        match Cxx.leading_digits s2 with
        | [] =>
            ({| buffer := rest; eofbit := at_end rest; failbit := true |}, 0%Z)
        | ds =>
            let v := if negative then (- Cxx.digits_value ds)%Z
                     else Cxx.digits_value ds in
            if (v <? Cxx.INT_MIN)%Z then
              ({| buffer := rest; eofbit := at_end rest; failbit := true |},
               Cxx.INT_MIN)
            else if (Cxx.INT_MAX <? v)%Z then
              ({| buffer := rest; eofbit := at_end rest; failbit := true |},
               Cxx.INT_MAX)
            else
              ({| buffer := rest; eofbit := at_end rest; failbit := false |}, v)
        end
    end
  else ({| buffer := buffer i; eofbit := eofbit i; failbit := true |}, n).

(** [in >> str] for a [string]: white space is skipped and the word that
    follows replaces [str]; a stream that is not good, or that ends in the
    white space, sets failbit and leaves [str] alone. *)
Definition extract_word (i : istream) (str : string) : istream * string :=
  if good i then
    match Cxx.skip_spaces (buffer i) with
    | EmptyString =>
        ({| buffer := ""; eofbit := true; failbit := true |}, str)
    | s1 =>
        let (word, rest) := read_word s1 in
        ({| buffer := rest; eofbit := at_end rest; failbit := false |}, word)
    end
  else ({| buffer := buffer i; eofbit := eofbit i; failbit := true |}, str).

(** [cin >> n] and [cin >> str]: the value of the variable afterwards. *)
Definition cin_int (n : Z) : M world Z :=
  fun w => let (i, v) := extract_int (cin w) n in (Ret v, set_cin i w).

Definition cin_word (str : string) : M world string :=
  fun w => let (i, v) := extract_word (cin w) str in (Ret v, set_cin i w).

End Formatted.

(** ** FileManager.cpp: the controller of the printing facade *)

Module Earlier.
Import Formatted.
Open Scope Z_scope.

(** The locals of [start], which live across the turns of its loop. *)
Record locals := {
  choice : Z;
  path : string;
  newPath : string;
  query : string
}.

Definition menu : string :=
  endl ++ "File Manager Menu:" ++ endl ++
  "1. List directory contents" ++ endl ++
  "2. Create a file" ++ endl ++
  "3. Delete a file" ++ endl ++
  "4. Create a directory" ++ endl ++
  "5. Delete a directory" ++ endl ++
  "6. Rename a file or directory" ++ endl ++
  "7. Search files by name or extension" ++ endl ++
  "0. Exit" ++ endl ++
  "Select an option: ".

Definition showMenu : M world unit := cout_put menu.

Definition exiting : string := "Exiting program." ++ endl.
Definition invalid_option : string := "Invalid option. Please try again." ++ endl.

(** [switch (choice) { ... }]: the locals afterwards. *)
Definition switch (l : locals) (choice : Z) : M world locals :=
  match choice with
  | 1 =>
      cout_put "Enter directory path: " ;;
      path <- cin_word (path l) ;;
      Printing.listDirectoryContents path ;;
      ret {| choice := choice; path := path;
             newPath := newPath l; query := query l |}
  | 2 =>
      cout_put "Enter file path to create: " ;;
      path <- cin_word (path l) ;;
      Printing.createFile path ;;
      ret {| choice := choice; path := path;
             newPath := newPath l; query := query l |}
  | 3 =>
      cout_put "Enter file path to delete: " ;;
      path <- cin_word (path l) ;;
      Printing.deleteFile path ;;
      ret {| choice := choice; path := path;
             newPath := newPath l; query := query l |}
  | 4 =>
      cout_put "Enter directory path to create: " ;;
      path <- cin_word (path l) ;;
      Printing.createDirectory path ;;
      ret {| choice := choice; path := path;
             newPath := newPath l; query := query l |}
  | 5 =>
      cout_put "Enter directory path to delete: " ;;
      path <- cin_word (path l) ;;
      Printing.deleteDirectory path ;;
      ret {| choice := choice; path := path;
             newPath := newPath l; query := query l |}
  | 6 =>
      cout_put "Enter current file/directory path: " ;;
      path <- cin_word (path l) ;;
      cout_put "Enter new file/directory path: " ;;
      newPath <- cin_word (newPath l) ;;
      Printing.rename path newPath ;;
      ret {| choice := choice; path := path;
             newPath := newPath; query := query l |}
  | 7 =>
      cout_put "Enter directory path to search in: " ;;
      path <- cin_word (path l) ;;
      cout_put "Enter file name or extension to search: " ;;
      query <- cin_word (query l) ;;
      Printing.searchFiles path query ;;
      ret {| choice := choice; path := path;
             newPath := newPath l; query := query |}
  | 0 =>
      cout_put exiting ;;
      ret {| choice := choice; path := path l;
             newPath := newPath l; query := query l |}
  | _ =>
      cout_put invalid_option ;;
      ret {| choice := choice; path := path l;
             newPath := newPath l; query := query l |}
  end.

(** The body of [do { ... } while (choice != 0)]. *)
Definition turn (l : locals) : M world locals :=
  showMenu ;;
  choice <- cin_int (choice l) ;;
  switch l choice.

(** [start], for at most [fuel] turns: [Some tt] when the loop was left
    because [choice] is 0, [None] when the turns ran out. *)
Fixpoint start_from (fuel : nat) (l : locals) : M world (option unit) :=
  match fuel with
  | O => ret None
  | S fuel' =>
      l' <- turn l ;;
      if choice l' =? 0 then ret (Some tt) else start_from fuel' l'
  end.

(** [choice] is not initialised: [uninitialised] is what it holds. *)
Definition start (fuel : nat) (uninitialised : Z) : M world (option unit) :=
  start_from fuel {| choice := uninitialised; path := "";
                     newPath := ""; query := "" |}.

End Earlier.

(** ** More vocabulary *)

Module Behaviour.
Open Scope Z_scope.

(** A run that returns one of [codes] and does not throw. *)
Definition returns_one_of {S} (run : result Z * S) (codes : list Z) : Prop :=
  exists status, fst run = Ret status /\ In status codes.

(** A computation that never throws. *)
Definition returns {S A} (m : M S A) : Prop :=
  forall s, exists a s', m s = (Ret a, s').

(** The exceptions of [std::stoi]. *)
Definition from_stoi (e : exn) : Prop :=
  e = invalid_argument "stoi" \/ e = out_of_range "stoi".

(** A computation that leaves [cin] as it found it. *)
Definition keeps_input {S} `{Process S} {A} (m : M S A) : Prop :=
  forall s, cin (world_of (snd (m s))) = cin (world_of s).

(** A world whose input stream has failed or ended. *)
Definition failed (w : world) : Prop := good (cin w) = false.

(** Where [pre] holds and [m] returns, [post] holds of what it returns. *)
Definition ensures {S A} (pre : S -> Prop) (m : M S A)
           (post : A -> S -> Prop) : Prop :=
  forall s, pre s ->
    match m s with
    | (Ret a, s') => post a s'
    | (Throw _, _) => True
    end.

End Behaviour.

(** * Properties *)

(** ** The monad *)

Lemma bind_ret_run {S A B} (m : M S A) (k : A -> M S B) s a s' :
  m s = (Ret a, s') -> bind m k s = k a s'.
Proof. intros E. unfold bind. now rewrite E. Qed.

Lemma bind_throw_run {S A B} (m : M S A) (k : A -> M S B) s e s' :
  m s = (Throw e, s') -> bind m k s = (Throw e, s').
Proof. intros E. unfold bind. now rewrite E. Qed.

(** ** Absent and present paths (C2, C6) *)

(** C2. When the existence check on [P] answers false, [deleteFile P],
    [deleteDirectory P] and [rename P Q], for any [Q], each return
    NotFound (404). *)
Theorem absent_path_is_not_found (w : world) (P Q : string) :
  fs.exists_ P w = (Ret false, w) ->
  fst (Facade.deleteFile P w) = Ret Contract.NotFound /\
  fst (Facade.deleteDirectory P w) = Ret Contract.NotFound /\
  fst (Facade.rename P Q w) = Ret Contract.NotFound.
Proof.
  intros Habsent.
  unfold Facade.deleteFile, Facade.deleteDirectory, Facade.rename, try_catch.
  rewrite !(bind_ret_run _ _ _ Habsent). simpl. auto.
Qed.

Lemma absent_path_is_not_found_witness :
  let w := Examples.world_with "" in
  fst (Facade.deleteFile "/tmp/t/none" w) = Ret 404%Z /\
  fst (Facade.deleteDirectory "/tmp/t/none" w) = Ret 404%Z /\
  fst (Facade.rename "/tmp/t/none" "/e/x" w) = Ret 404%Z.
Proof.
  apply (@absent_path_is_not_found (Examples.world_with "") "/tmp/t/none" "/e/x").
  reflexivity.
Defined.

(** C6. When the existence check on [P] answers true, whatever [P] is,
    [createDirectory P] returns InvalidRequest (400) and the directory tree
    is the one before the call. *)
Theorem createDirectory_existing (w : world) (P : string) :
  fs.exists_ P w = (Ret true, w) ->
  fst (Facade.createDirectory P w) = Ret Contract.InvalidRequest /\
  root (snd (Facade.createDirectory P w)) = root w.
Proof.
  intros Hpresent.
  unfold Facade.createDirectory, try_catch.
  rewrite (bind_ret_run _ _ _ Hpresent). simpl. auto.
Qed.

Lemma createDirectory_existing_witness :
  let w := Examples.world_with "" in
  (fst (Facade.createDirectory "/tmp/t" w) = Ret 400%Z /\
   root (snd (Facade.createDirectory "/tmp/t" w)) = root w) /\
  (fst (Facade.createDirectory "/tmp/t/a.txt" w) = Ret 400%Z /\
   root (snd (Facade.createDirectory "/tmp/t/a.txt" w)) = root w) /\
  (fst (Facade.createDirectory "/home/pipe" w) = Ret 400%Z /\
   root (snd (Facade.createDirectory "/home/pipe" w)) = root w).
Proof.
  intros w. split; [|split].
  - apply (@createDirectory_existing w "/tmp/t"). reflexivity.
  - apply (@createDirectory_existing w "/tmp/t/a.txt"). reflexivity.
  - apply (@createDirectory_existing w "/home/pipe"). reflexivity.
Defined.

(** ** The command loop (C1, C10) *)

Lemma processCommand_throws (command : string) (e : exn) (w : world) :
  Cxx.parse_int command = Throw e ->
  UI.processCommand command w = (Throw e, w).
Proof.
  intros E. unfold UI.processCommand, Cxx.stoi, bind. now rewrite E.
Qed.

Lemma dispatch_throws (command : string) (e : exn) (w : world) :
  Cxx.parse_int command = Throw e ->
  UI.dispatch command w = (Throw e, w).
Proof.
  intros E. unfold UI.dispatch.
  destruct (String.eqb_spec command "9") as [-> | _]; [discriminate E|].
  unfold bind. now rewrite (processCommand_throws _ _ E).
Qed.

(** A line that parses to a number outside 1..9 is reported as unknown and
    the loop goes on. *)
Lemma number_out_of_menu_is_unknown (command : string) (k : Z) (w : world) :
  Cxx.parse_int command = Ret k ->
  (k < 1 \/ 9 < k)%Z ->
  UI.dispatch command w = (Ret UI.Continue, put_cout Contract.unknown_command w).
Proof.
  intros E Hk. unfold UI.dispatch.
  destruct (String.eqb_spec command "9") as [-> | _].
  - vm_compute in E. injection E as <-. lia.
  - unfold bind, UI.processCommand, Cxx.stoi, bind. rewrite E.
    destruct k as [|p|p]; try reflexivity.
    do 4 (try (destruct p as [p|p|]; try reflexivity; try lia)).
Qed.

(** C1, at the failing input: the line [abc] at the menu prompt.  [stoi]
    throws [invalid_argument], nothing catches it, and [start] ends by that
    exception instead of reporting an unknown command and going on. *)
Theorem non_numeric_command_ends_start (fuel : nat) (rest : string) :
  fst (UI.start (S fuel) (Examples.world_with (Examples.line "abc" ++ rest)))
  = Throw (invalid_argument "stoi").
Proof. reflexivity. Qed.

(** The same for any line in which [stoi] finds no number, the empty line
    among them. *)
Lemma unparsable_command_ends_turn (command0 : string) (w : world) (e : exn) :
  Cxx.parse_int (snd (Console.getline_from (cin w) command0)) = Throw e ->
  fst (UI.turn command0 w) = Throw e.
Proof.
  intros E. unfold UI.turn, bind, cout_put, in_world, modify, Console.getline.
  simpl. destruct (Console.getline_from (cin w) command0) as [i ln] eqn:G.
  simpl in *. now rewrite (dispatch_throws _ _ E).
Qed.

Lemma empty_line_is_unparsable :
  Cxx.parse_int "" = Throw (invalid_argument "stoi").
Proof. reflexivity. Qed.

(** C10. Dispatch keys on the number [stoi] reads at the front of the
    line.  A line that parses to [k] in 1..8 (such as [1abc] or [ 2x]) runs
    the operation that the menu offers under [k] and goes on with the loop,
    which is what the line [k] does.  A line other than [9] that parses to 9
    (such as [09] or [9x]) does nothing at all: the world is untouched and
    the loop goes on.  Only the line [9] itself can leave the loop, and it
    asks for confirmation first. *)
Theorem dispatch_keys_on_numeric_prefix (command : string) (w : world) :
  (forall k, Cxx.parse_int command = Ret k -> (1 <= k <= 8)%Z ->
             UI.dispatch command w
             = (Contract.menu_entry k ;; ret UI.Continue) w) /\
  (forall k, Cxx.parse_int command = Ret k -> (1 <= k <= 8)%Z ->
             UI.dispatch command w = UI.dispatch (UI.to_string k) w) /\
  (Cxx.parse_int command = Ret 9%Z -> command <> "9" ->
   UI.dispatch command w = (Ret UI.Continue, w)) /\
  (fst (UI.dispatch command w) = Ret UI.Break -> command = "9") /\
  (cout (snd (UI.dispatch "9" w))
   = (cout w ++ Contract.sure_exit
        :: if UI.confirmed (Console.answer (put_cout Contract.sure_exit w))
           then [Contract.goodbye] else [])%list) /\
  UI.dispatch "1abc" w = UI.dispatch "1" w /\
  UI.dispatch " 2x" w = UI.dispatch "2" w /\
  UI.dispatch "09" w = (Ret UI.Continue, w) /\
  UI.dispatch "9x" w = (Ret UI.Continue, w).
Proof.
  repeat split; try reflexivity.
  - intros k E Hk. unfold UI.dispatch.
    destruct (String.eqb_spec command "9") as [-> | _].
    { vm_compute in E. injection E as <-. lia. }
    assert (Hcases : (k = 1 \/ k = 2 \/ k = 3 \/ k = 4 \/
                      k = 5 \/ k = 6 \/ k = 7 \/ k = 8)%Z) by lia.
    assert (Hruns : UI.processCommand command w = Contract.menu_entry k w).
    { unfold UI.processCommand, Cxx.stoi, bind. rewrite E.
      repeat (destruct Hcases as [-> | Hcases]); try subst k; reflexivity. }
    change ((UI.processCommand command ;; ret UI.Continue) w
            = (Contract.menu_entry k ;; ret UI.Continue) w).
    unfold bind at 1 2. now rewrite Hruns.
  - intros k E Hk. unfold UI.dispatch.
    destruct (String.eqb_spec command "9") as [-> | _].
    { vm_compute in E. injection E as <-. lia. }
    assert (Hcases : (k = 1 \/ k = 2 \/ k = 3 \/ k = 4 \/
                      k = 5 \/ k = 6 \/ k = 7 \/ k = 8)%Z) by lia.
    unfold bind at 1 3. unfold UI.processCommand, Cxx.stoi, bind at 1 3.
    rewrite E.
    repeat (destruct Hcases as [-> | Hcases]); try subst k; reflexivity.
  - intros E Hne. unfold UI.dispatch.
    destruct (String.eqb_spec command "9") as [-> | _]; [congruence|].
    unfold bind, UI.processCommand, Cxx.stoi, bind. now rewrite E.
  - unfold UI.dispatch.
    destruct (String.eqb_spec command "9") as [-> | _]; [reflexivity|].
    unfold bind. destruct (UI.processCommand command w) as [[u|e] w']; discriminate.
  - unfold UI.dispatch, bind, cout_put, in_world, modify, Console.read_char,
      Console.ignore, Console.answer. simpl.
    destruct (Console.extract_char (cin w)) as [i [c|]]; simpl;
      match goal with |- context [UI.confirmed ?c] =>
        destruct (UI.confirmed c) end; simpl;
      rewrite <- ?app_assoc; reflexivity.
Qed.

Lemma dispatch_keys_on_numeric_prefix_witness :
  UI.dispatch " 7 and more" (Examples.world_with "")
  = (UI.searchFiles ;; ret UI.Continue) (Examples.world_with "") /\
  UI.dispatch " 7 and more" (Examples.world_with "")
  = UI.dispatch "7" (Examples.world_with "") /\
  UI.dispatch "+9" (Examples.world_with "")
  = (Ret UI.Continue, Examples.world_with "").
Proof.
  destruct (@dispatch_keys_on_numeric_prefix " 7 and more" (Examples.world_with ""))
    as [Hruns [H18 _]].
  destruct (@dispatch_keys_on_numeric_prefix "+9" (Examples.world_with ""))
    as [_ [_ [H9 _]]].
  split; [|split].
  - apply (Hruns 7%Z); [reflexivity | lia].
  - apply (H18 7%Z); [reflexivity | lia].
  - apply H9; [reflexivity | discriminate].
Defined.

(** ** Confirmation of the destructive commands (C7) *)

Lemma refuses_not_confirmed (c : ascii) :
  Contract.refuses c -> UI.confirmed c = false.
Proof.
  intros [Hy HY]. unfold UI.confirmed.
  destruct (Ascii.eqb_spec c "y"); [contradiction|].
  destruct (Ascii.eqb_spec c "Y"); [contradiction|]. reflexivity.
Qed.

Lemma read_char_run (w : world) :
  Console.read_char w
  = (Ret (Console.answer w), set_cin (fst (Console.extract_char (cin w))) w).
Proof.
  unfold Console.read_char, Console.answer.
  now destruct (Console.extract_char (cin w)).
Qed.

(** C7, refuted on replies that begin with [y] or [Y].  [cin >> confirm]
    takes one character of the reply.  The reply [yes] to the prompt of
    delete file is not the single character [y], yet the file
    [/tmp/t/a.txt] is deleted; the reply [Yes please] deletes the directory
    [/tmp/t/sub], [yep] clears the console and [Yes, quit] leaves the
    loop. *)
Lemma reply_beginning_with_y_confirms :
  ("yes" <> "y" /\ "yes" <> "Y") /\
  (let w := Examples.world_with
              (Examples.line "/tmp/t/a.txt" ++ Examples.line "yes") in
   fs.exists_ "/tmp/t/a.txt" w = (Ret true, w) /\
   fst (UI.dispatch "2" w) = Ret UI.Continue /\
   fst (fs.exists_ "/tmp/t/a.txt" (snd (UI.dispatch "2" w))) = Ret false /\
   root (snd (UI.dispatch "2" w)) <> root w) /\
  (let w := Examples.world_with
              (Examples.line "/tmp/t/sub" ++ Examples.line "Yes please") in
   fst (fs.exists_ "/tmp/t/sub" (snd (UI.dispatch "4" w))) = Ret false) /\
  shell (snd (UI.dispatch "8" (Examples.world_with (Examples.line "yep"))))
  = ["cls"] /\
  fst (UI.dispatch "9" (Examples.world_with (Examples.line "Yes, quit")))
  = Ret UI.Break.
Proof.
  repeat split; try reflexivity; discriminate.
Qed.

(** C7, amended. Delete file (2), delete directory (4), clear console (8)
    and exit (9): when the character that [cin >> confirm] leaves in
    [confirm] (the first character of the reply that is not white space)
    is neither [y] nor [Y], the command is cancelled.  The tree is the one
    before, no shell command is run, nothing is written to [cerr], [cout]
    receives the prompts and the cancellation message only (so no status
    was reported), and the loop goes on to the next menu. *)
Theorem refused_confirmation_cancels (w : world) :
  (Contract.refuses (Console.answer (Console.after_line w)) ->
   fst (UI.dispatch "2" w) = Ret UI.Continue /\
   Contract.only_printed w (snd (UI.dispatch "2" w))
     [Contract.enter_file_path; Contract.sure_delete_file;
      Contract.operation_canceled]) /\
  (Contract.refuses (Console.answer (Console.after_line w)) ->
   fst (UI.dispatch "4" w) = Ret UI.Continue /\
   Contract.only_printed w (snd (UI.dispatch "4" w))
     [Contract.enter_directory_path; Contract.sure_delete_directory;
      Contract.operation_canceled]) /\
  (Contract.refuses (Console.answer w) ->
   fst (UI.dispatch "8" w) = Ret UI.Continue /\
   Contract.only_printed w (snd (UI.dispatch "8" w))
     [Contract.sure_clear; Contract.operation_canceled]) /\
  (Contract.refuses (Console.answer w) ->
   fst (UI.dispatch "9" w) = Ret UI.Continue /\
   Contract.only_printed w (snd (UI.dispatch "9" w)) [Contract.sure_exit]).
Proof.
  unfold Contract.only_printed.
  repeat split; apply refuses_not_confirmed in H;
    unfold UI.dispatch, UI.processCommand, UI.deleteFile, UI.deleteDirectory,
      UI.clearConsoleWithConfirmation, Cxx.stoi, Console.getline,
      Console.ignore, cout_put, in_world, modify, bind in *;
    simpl;
    try (unfold Console.after_line in H;
         destruct (Console.getline_from (cin w) "") as [i path]; simpl in H);
    rewrite read_char_run; unfold Console.answer in *; simpl in *;
    rewrite H; simpl; rewrite <- ?app_assoc; reflexivity.
Qed.

Lemma refused_confirmation_cancels_witness :
  let w := Examples.world_with
             (Examples.line "/tmp/t/a.txt" ++ Examples.line "no") in
  fst (UI.dispatch "2" w) = Ret UI.Continue /\
  root (snd (UI.dispatch "2" w)) = Examples.tree /\
  fst (UI.dispatch "9" (Examples.world_with (Examples.line "n")))
  = Ret UI.Continue.
Proof.
  intros w.
  destruct (@refused_confirmation_cancels w) as [H2 _].
  destruct (@refused_confirmation_cancels (Examples.world_with (Examples.line "n")))
    as [_ [_ [_ H9]]].
  destruct H2 as [F2 [R2 _]]; [split; discriminate|].
  destruct H9 as [F9 _]; [split; discriminate|].
  repeat split; assumption.
Defined.

(** ** Running the read-only calls *)

Lemma set_root_same (w : world) : set_root (root w) w = w.
Proof. now destruct w. Qed.

Lemma stat_run (p : string) (n : Os.node) :
  Os.stat p n = (fst (Os.stat p n), n).
Proof. unfold Os.stat. now destruct (String.eqb p ""). Qed.

(** A call that only reads the tree leaves every state as it is. *)
Lemma read_only_run {S} `{Process S} {A} (m : M Os.node A) (s : S) :
  (forall n, snd (m n) = n) ->
  with_world (world_of s) s = s ->
  in_world (on_root m) s = (fst (m (root (world_of s))), s).
Proof.
  intros Hpure Hs. unfold in_world, on_root.
  specialize (Hpure (root (world_of s))).
  destruct (m (root (world_of s))) as [r n']. simpl in *. subst n'.
  now rewrite set_root_same, Hs.
Qed.

Lemma with_world_same_world (w : world) : with_world (world_of w) w = w.
Proof. reflexivity. Qed.

Lemma with_world_same_local {V} (s : world * V) : with_world (world_of s) s = s.
Proof. now destruct s. Qed.

Lemma stat_pure p n : snd (Os.stat p n) = n.
Proof. now rewrite stat_run. Qed.

Lemma after_stat_pure {A} (p : string) (k : option Os.node -> M Os.node A) :
  (forall s n, snd (k s n) = n) ->
  forall n, snd (bind (Os.stat p) k n) = n.
Proof.
  intros Hk n. unfold bind. rewrite stat_run.
  destruct (fst (Os.stat p n)); [apply Hk | reflexivity].
Qed.

Lemma exists_pure p n : snd (Os.exists_ p n) = n.
Proof. apply after_stat_pure. reflexivity. Qed.

Lemma is_directory_pure p n : snd (Os.is_directory p n) = n.
Proof. apply after_stat_pure. reflexivity. Qed.

Lemma is_regular_file_pure p n : snd (Os.is_regular_file p n) = n.
Proof. apply after_stat_pure. reflexivity. Qed.

Lemma directory_iterator_pure p n : snd (Os.directory_iterator p n) = n.
Proof.
  apply after_stat_pure. intros [[| |[] es]|] m; reflexivity.
Qed.

Lemma recursive_directory_iterator_pure p skip n :
  snd (Os.recursive_directory_iterator p skip n) = n.
Proof.
  apply after_stat_pure. intros [[| |a es]|] m; reflexivity.
Qed.

Lemma status_throws_filesystem_error cs n e :
  Os.status cs n = Throw e -> is_filesystem_error e = true.
Proof.
  revert n. induction cs as [|c cs IH]; intros n E; simpl in E.
  - discriminate.
  - destruct n as [| |[] es]; try discriminate;
      try (destruct (Os.assoc c es); [eauto | discriminate]);
      now injection E as <-.
Qed.

Lemma stat_throws_filesystem_error p n e :
  fst (Os.stat p n) = Throw e -> is_filesystem_error e = true.
Proof.
  unfold Os.stat. destruct (String.eqb p ""); simpl; [discriminate|].
  apply status_throws_filesystem_error.
Qed.

(** ** The loops that fill the vector *)

Lemma for_each_push_back (entries : list string) (w : world) (v : list string) :
  for_each entries (fun entry => push_back entry) (w, v)
  = (Ret tt, (w, (v ++ entries)%list)).
Proof.
  revert v. induction entries as [|x l IH]; intros v; simpl.
  - now rewrite app_nil_r.
  - unfold bind, push_back at 1, modify. simpl. rewrite IH.
    now rewrite <- app_assoc.
Qed.

Lemma for_each_push_matching (pattern : string) (entries : list string)
      (w : world) (v : list string) :
  for_each entries (fun entry =>
      match Cxx.find pattern (Cxx.filename entry) with
      | Some _ => push_back entry
      | None => ret tt
      end) (w, v)
  = (Ret tt, (w, (v ++ Contract.matching pattern entries)%list)).
Proof.
  revert v. induction entries as [|x l IH]; intros v; simpl.
  - now rewrite app_nil_r.
  - unfold bind at 1.
    destruct (Cxx.find pattern (Cxx.filename x)); simpl.
    + unfold push_back at 1, modify. simpl. rewrite IH.
      now rewrite <- app_assoc.
    + apply IH.
Qed.

(** ** What the read-only calls return, by what [stat] finds *)

Section ReadOnly.
Context {S : Type} `{Process S}.
Variable s : S.
Hypothesis s_same : with_world (world_of s) s = s.
Variable p : string.

Lemma stat_then_run {A} (k : option Os.node -> M Os.node A) :
  (forall o n, snd (k o n) = n) ->
  in_world (on_root (bind (Os.stat p) k)) s
  = (match fst (Os.stat p (root (world_of s))) with
     | Ret o => fst (k o (root (world_of s)))
     | Throw e => Throw e
     end, s).
Proof.
  intros Hk. rewrite read_only_run; auto using after_stat_pure.
  f_equal. unfold bind. rewrite stat_run.
  now destruct (fst (Os.stat p (root (world_of s)))).
Qed.

Lemma exists_found o :
  fst (Os.stat p (root (world_of s))) = Ret o ->
  fs.exists_ p s = (Ret (match o with Some _ => true | None => false end), s).
Proof.
  intros E. unfold fs.exists_, Os.exists_.
  rewrite stat_then_run by reflexivity. now rewrite E.
Qed.

Lemma is_directory_found o :
  fst (Os.stat p (root (world_of s))) = Ret o ->
  fs.is_directory p s
  = (Ret (match o with Some m => Os.is_dir m | None => false end), s).
Proof.
  intros E. unfold fs.is_directory, Os.is_directory.
  rewrite stat_then_run by reflexivity. now rewrite E.
Qed.

Lemma is_regular_file_found o :
  fst (Os.stat p (root (world_of s))) = Ret o ->
  fs.is_regular_file p s
  = (Ret (match o with Some m => Os.is_regular m | None => false end), s).
Proof.
  intros E. unfold fs.is_regular_file, Os.is_regular_file.
  rewrite stat_then_run by reflexivity. now rewrite E.
Qed.

Lemma exists_failed e :
  fst (Os.stat p (root (world_of s))) = Throw e ->
  fs.exists_ p s = (Throw e, s).
Proof.
  intros E. unfold fs.exists_, Os.exists_.
  rewrite stat_then_run by reflexivity. now rewrite E.
Qed.

Lemma directory_iterator_opened a es :
  fst (Os.stat p (root (world_of s))) = Ret (Some (Os.Directory a es)) ->
  Os.can_open a = true ->
  fs.directory_iterator p s
  = (Ret (map (fun e => Cxx.path_append p (fst e)) es), s).
Proof.
  intros E Ha. unfold fs.directory_iterator, Os.directory_iterator.
  rewrite stat_then_run by (intros [[| |[] ?]|] ?; reflexivity).
  rewrite E. now rewrite Ha.
Qed.

Lemma directory_iterator_refused a es :
  fst (Os.stat p (root (world_of s))) = Ret (Some (Os.Directory a es)) ->
  Os.can_open a = false ->
  fs.directory_iterator p s = (Throw (filesystem_error (Os.refusal a)), s).
Proof.
  intros E Ha. unfold fs.directory_iterator, Os.directory_iterator.
  rewrite stat_then_run by (intros [[| |[] ?]|] ?; reflexivity).
  rewrite E. now rewrite Ha.
Qed.

Lemma recursive_directory_iterator_opened skip a es :
  fst (Os.stat p (root (world_of s))) = Ret (Some (Os.Directory a es)) ->
  fs.recursive_directory_iterator p skip s
  = (Ret (Os.descend skip p (Os.Directory a es)), s).
Proof.
  intros E.
  unfold fs.recursive_directory_iterator, Os.recursive_directory_iterator.
  rewrite stat_then_run by (intros [[| |? ?]|] ?; reflexivity).
  now rewrite E.
Qed.

End ReadOnly.

(** One statement of a [bind] chain, run with what it is known to return. *)
Ltac run_with E :=
  first [ rewrite (bind_ret_run _ _ _ E) | rewrite (bind_throw_run _ _ _ E) ];
  cbv beta iota delta [negb Os.is_dir Os.is_regular].

(** What [listDirectoryContents] does, by what [stat] finds at [path]. *)
Lemma listDirectoryContents_run (path : string) (w : world) (v : list string) :
  Facade.listDirectoryContents path (w, v) =
  match fst (Os.stat path (root w)) with
  | Ret None =>
      (Ret 404%Z, (put_cerr ("Error: Path does not exist." ++ endl) w, v))
  | Ret (Some (Os.Directory a es)) =>
      if Os.can_open a then
        (Ret 200%Z,
         (w, (v ++ map (fun e => Cxx.path_append path (fst e)) es)%list))
      else
        (Ret 500%Z,
         (put_cerr ("Error accessing directory: "
                    ++ what (filesystem_error (Os.refusal a)) ++ endl) w, v))
  | Ret (Some _) =>
      (Ret 400%Z, (put_cerr ("Error: Path is not a directory." ++ endl) w, v))
  | Throw e =>
      (Ret 500%Z,
       (put_cerr ("Error accessing directory: " ++ what e ++ endl) w, v))
  end.
Proof.
  assert (Hs : with_world (world_of (w, v)) (w, v) = (w, v)) by reflexivity.
  unfold Facade.listDirectoryContents, try_catch.
  destruct (fst (Os.stat path (root w))) as [o|e] eqn:E.
  - destruct o as [[| |a es]|];
      run_with (@exists_found _ _ (w, v) Hs path _ E); try reflexivity;
      run_with (@is_directory_found _ _ (w, v) Hs path _ E); try reflexivity.
    destruct (Os.can_open a) eqn:Ha.
    + run_with (@directory_iterator_opened _ _ (w, v) Hs path _ _ E Ha).
      unfold bind. now rewrite for_each_push_back.
    + rewrite (bind_throw_run _ _ _
        (@directory_iterator_refused _ _ (w, v) Hs path _ _ E Ha)).
      reflexivity.
  - run_with (@exists_failed _ _ (w, v) Hs path _ E).
    now rewrite (stat_throws_filesystem_error _ _ E).
Qed.

(** What [searchFiles] does, by what [stat] finds at [path] and by how the
    walk ends. *)
Lemma searchFiles_run (path pattern : string) (w : world) (v : list string) :
  Facade.searchFiles path pattern (w, v) =
  match fst (Os.stat path (root w)) with
  | Ret None =>
      (Ret 404%Z, (put_cerr ("Error: Directory does not exist." ++ endl) w, v))
  | Ret (Some (Os.Directory a es)) =>
      let walk := Os.descend true path (Os.Directory a es) in
      let v' := (v ++ Contract.matching pattern (fst walk))%list in
      match snd walk with
      | None => (Ret (match v' with [] => 204%Z | _ => 200%Z end), (w, v'))
      | Some ec =>
          (Ret 500%Z, (put_cerr (what (filesystem_error ec) ++ endl) w, v'))
      end
  | Ret (Some _) =>
      (Ret 400%Z, (put_cerr ("Error: Path is not a directory." ++ endl) w, v))
  | Throw e => (Ret 500%Z, (put_cerr (what e ++ endl) w, v))
  end.
Proof.
  assert (Hs : with_world (world_of (w, v)) (w, v) = (w, v)) by reflexivity.
  unfold Facade.searchFiles, try_catch.
  destruct (fst (Os.stat path (root w))) as [o|e] eqn:E.
  - destruct o as [[| |a es]|];
      run_with (@exists_found _ _ (w, v) Hs path _ E); try reflexivity;
      run_with (@is_directory_found _ _ (w, v) Hs path _ E); try reflexivity.
    run_with (@recursive_directory_iterator_opened _ _ (w, v) Hs path true _ _ E).
    destruct (Os.descend true path (Os.Directory a es)) as [entries err].
    unfold fs.range_for, bind. simpl fst. simpl snd.
    rewrite for_each_push_matching.
    destruct err as [ec|]; simpl; [reflexivity|].
    now destruct (v ++ Contract.matching pattern entries)%list.
  - run_with (@exists_failed _ _ (w, v) Hs path _ E).
    now rewrite (stat_throws_filesystem_error _ _ E).
Qed.

(** ** The output vector (C9) *)

(** C9. [listDirectoryContents] and [searchFiles] only ever append to the
    vector they are given: what it held before (entries of an earlier call
    among them) stays in front.  When they return NotFound (404) or
    InvalidRequest (400) nothing was appended.  A return of InternalError
    (500) can come after entries were appended: [searchFiles] on [/tmp/t]
    of the example tree collects two matches, then the walk fails. *)
Theorem output_vector_is_appended_to :
  (forall path w v, exists status added,
      fst (Facade.listDirectoryContents path (w, v)) = Ret status /\
      snd (snd (Facade.listDirectoryContents path (w, v))) = (v ++ added)%list /\
      (status = Contract.NotFound \/ status = Contract.InvalidRequest ->
       added = [])) /\
  (forall path pattern w v, exists status added,
      fst (Facade.searchFiles path pattern (w, v)) = Ret status /\
      snd (snd (Facade.searchFiles path pattern (w, v))) = (v ++ added)%list /\
      (status = Contract.NotFound \/ status = Contract.InvalidRequest ->
       added = [])) /\
  (let run := Facade.searchFiles "/tmp/t" ".txt"
                (Examples.world_with "", ["stale"]) in
   fst run = Ret Contract.InternalError /\
   snd (snd run) = ["stale"; "/tmp/t/a.txt"; "/tmp/t/sub/c.txt"]).
Proof.
  split; [|split].
  - intros path w v. rewrite listDirectoryContents_run.
    destruct (fst (Os.stat path (root w))) as [[[| |a es]|]|e];
      try (eexists _, []; rewrite app_nil_r;
           split; [reflexivity | split; [reflexivity|]]; auto; fail).
    destruct (Os.can_open a).
    + exists 200%Z, (map (fun e => Cxx.path_append path (fst e)) es).
      split; [reflexivity | split; [reflexivity|]].
      intros [?|?]; discriminate.
    + exists 500%Z, []. rewrite app_nil_r.
      split; [reflexivity | split; [reflexivity|]]. auto.
  - intros path pattern w v. rewrite searchFiles_run.
    destruct (fst (Os.stat path (root w))) as [[[| |a es]|]|e];
      try (eexists _, []; rewrite app_nil_r;
           split; [reflexivity | split; [reflexivity|]]; auto; fail).
    cbv zeta.
    destruct (Os.descend true path (Os.Directory a es)) as [entries [ec|]];
      cbn [fst snd].
    + exists 500%Z, (Contract.matching pattern entries).
      split; [reflexivity | split; [reflexivity|]].
      intros [?|?]; discriminate.
    + eexists _, (Contract.matching pattern entries).
      split; [reflexivity | split; [reflexivity|]].
      intros [?|?]; destruct (v ++ Contract.matching pattern entries)%list;
        discriminate.
  - split; reflexivity.
Qed.

Lemma output_vector_is_appended_to_witness :
  exists status added,
    fst (Facade.listDirectoryContents "/tmp/none"
           (Examples.world_with "", ["stale"])) = Ret status /\
    snd (snd (Facade.listDirectoryContents "/tmp/none"
                (Examples.world_with "", ["stale"]))) = ("stale" :: added) /\
    (status = 404%Z \/ status = 400%Z -> added = []).
Proof.
  destruct output_vector_is_appended_to as [Hlist _].
  apply (Hlist "/tmp/none" (Examples.world_with "") ["stale"]).
Defined.

(** ** Substring search: [find] *)

Lemma prefix_app (p s : string) :
  prefix p s = true <-> exists b, s = p ++ b.
Proof.
  revert s. induction p as [|c p IH]; intros s.
  - split; [exists s; reflexivity | now destruct s].
  - destruct s as [|d s]; simpl.
    + split; [discriminate | intros [b Hb]; discriminate].
    + destruct (ascii_dec c d) as [<-|Hne].
      * rewrite IH. split; intros [b Hb]; exists b; simpl in *; congruence.
      * split; [discriminate | intros [b Hb]; simpl in *; congruence].
Qed.

Lemma find_unfold (pattern s : string) :
  Cxx.find pattern s
  = if prefix pattern s then Some 0
    else match s with
         | EmptyString => None
         | String _ s' => option_map S (Cxx.find pattern s')
         end.
Proof. now destruct s. Qed.

Lemma find_occurs (pattern s : string) :
  Cxx.find pattern s <> None <-> Contract.occurs_in pattern s.
Proof.
  unfold Contract.occurs_in. split.
  - induction s as [|c s IH]; rewrite find_unfold;
      destruct (prefix pattern _) eqn:P;
      try (intros _; apply prefix_app in P as [b Hb]; now exists "", b).
    + intros Hf. now destruct Hf.
    + intros Hf. destruct (Cxx.find pattern s); [|now destruct Hf].
      destruct IH as [a [b Hab]]; [discriminate|].
      exists (String c a), b. simpl. now rewrite Hab.
  - intros [a [b ->]]. induction a as [|c a IH]; rewrite find_unfold.
    + assert (P : prefix pattern (pattern ++ b) = true)
        by (apply prefix_app; now exists b).
      simpl append. rewrite P. discriminate.
    + destruct (prefix pattern _); [discriminate|]. simpl append. cbv iota.
      destruct (Cxx.find pattern (a ++ pattern ++ b)); [simpl; discriminate|].
      contradiction.
Qed.

(** The empty pattern is found in every name, at position 0. *)
Lemma find_empty (s : string) : Cxx.find "" s = Some 0.
Proof. now destruct s. Qed.

Lemma matching_In (pattern : string) (entries : list string) (e : string) :
  In e (Contract.matching pattern entries)
  <-> In e entries /\ Contract.occurs_in pattern (Cxx.filename e).
Proof.
  unfold Contract.matching. rewrite filter_In, <- find_occurs.
  destruct (Cxx.find pattern (Cxx.filename e)); intuition congruence.
Qed.

Lemma matching_empty_pattern (entries : list string) :
  Contract.matching "" entries = entries.
Proof.
  induction entries as [|x l IH]; simpl; [reflexivity|].
  rewrite find_empty. now rewrite IH.
Qed.

(** ** The recursive walk *)

Lemma node_nested_ind (P : Os.node -> Prop) :
  P Os.RegularFile -> P Os.Other ->
  (forall a es, (forall name m, In (name, m) es -> P m) ->
                P (Os.Directory a es)) ->
  forall n, P n.
Proof.
  intros Hfile Hother Hdir. fix IH 1.
  intros [| |a es]; [exact Hfile | exact Hother |].
  apply Hdir. induction es as [|[k m] es IHes]; intros name m' Hin.
  - destruct Hin.
  - destruct Hin as [Heq|Hin].
    + injection Heq as <- <-. apply IH.
    + eapply IHes; eauto.
Qed.

Section WalkFacts.
Variable walk : string -> Os.node -> Os.dirstream.
Variable p : string.

(** Whatever the walk of the entries yields is an entry or comes from the
    walk below one. *)
Lemma walk_entries_sound es e :
  In e (fst (Os.walk_entries walk p es)) ->
  exists name m, In (name, m) es /\
    (e = Cxx.path_append p name \/ In e (fst (walk (Cxx.path_append p name) m))).
Proof.
  induction es as [|[k m] rest IH]; simpl; [contradiction|].
  destruct (walk (Cxx.path_append p k) m) as [sub [err|]] eqn:W.
  - simpl. intros [<-|Hin]; exists k, m; rewrite W; simpl; auto.
  - destruct (Os.walk_entries walk p rest) as [more err'] eqn:R. simpl in *.
    intros [<-|Hin].
    + exists k, m. rewrite W. auto.
    + apply in_app_or in Hin as [Hin|Hin].
      * exists k, m. rewrite W. auto.
      * destruct (IH Hin) as [name [m' [Hm He]]]. exists name, m'. auto.
Qed.

(** A walk of the entries that ends without error has yielded every entry
    and all that the walks below them yield, none of which failed. *)
Lemma walk_entries_complete es name m :
  snd (Os.walk_entries walk p es) = None ->
  In (name, m) es ->
  snd (walk (Cxx.path_append p name) m) = None /\
  In (Cxx.path_append p name) (fst (Os.walk_entries walk p es)) /\
  incl (fst (walk (Cxx.path_append p name) m))
       (fst (Os.walk_entries walk p es)).
Proof.
  induction es as [|[k m'] rest IH]; simpl; [contradiction|].
  destruct (walk (Cxx.path_append p k) m') as [sub [err|]] eqn:W;
    [discriminate|].
  destruct (Os.walk_entries walk p rest) as [more err'] eqn:R. simpl in *.
  intros -> [Heq|Hin].
  - injection Heq as <- <-. rewrite W. simpl. repeat split; auto.
    intros x Hx. right. apply in_or_app. auto.
  - destruct (IH eq_refl Hin) as [Hnone [Hq Hincl]].
    repeat split; auto.
    + right. apply in_or_app. auto.
    + intros x Hx. right. apply in_or_app. auto.
Qed.

Lemma walk_entries_no_error es :
  (forall name m, In (name, m) es ->
                  snd (walk (Cxx.path_append p name) m) = None) ->
  snd (Os.walk_entries walk p es) = None.
Proof.
  induction es as [|[k m] rest IH]; simpl; [reflexivity|]. intros Hall.
  pose proof (Hall k m (or_introl eq_refl)) as Hk.
  destruct (walk (Cxx.path_append p k) m) as [sub err]. simpl in Hk. subst err.
  destruct (Os.walk_entries walk p rest) as [more err'] eqn:R. simpl in *.
  apply IH. intros name m' Hin. apply Hall. auto.
Qed.

End WalkFacts.

(** The walk goes through the directories that can be opened. *)
Lemma descend_opened skip p a es :
  Os.can_open a = true ->
  Os.descend skip p (Os.Directory a es)
  = Os.walk_entries (Os.descend skip) p es.
Proof. destruct a; try discriminate; reflexivity. Qed.

Lemma descend_refused skip p a es :
  Os.can_open a = false ->
  Os.descend skip p (Os.Directory a es)
  = ([], match a with
         | Os.IOFailure => Some EIO
         | _ => if skip then None else Some EACCES
         end).
Proof. destruct a; try discriminate; destruct skip; reflexivity. Qed.

Lemma descend_sound skip n : forall p e,
  In e (fst (Os.descend skip p n)) -> Contract.under p n e.
Proof.
  induction n as [| |a es IH] using node_nested_ind; intros p e;
    try contradiction.
  destruct (Os.can_open a) eqn:Ha.
  - rewrite (@descend_opened skip p a es Ha).
    intros Hin. apply walk_entries_sound in Hin as [name [m [Hm [->|He]]]].
    + eapply Contract.under_entry; eauto.
    + eapply Contract.under_subdirectory; eauto.
  - rewrite (@descend_refused skip p a es Ha). contradiction.
Qed.

Lemma descend_complete skip p n e :
  Contract.under p n e ->
  snd (Os.descend skip p n) = None ->
  In e (fst (Os.descend skip p n)).
Proof.
  induction 1 as [p a es name m Ha Hin | p a es name m e Ha Hin Hunder IH];
    rewrite (@descend_opened skip p a es Ha);
    intros Hnone;
    destruct (walk_entries_complete _ _ _ _ _ Hnone Hin) as [Hm [Hq Hincl]];
    auto.
Qed.

Lemma no_io_failure_opened a es :
  Os.can_open a = true ->
  Os.no_io_failure (Os.Directory a es)
  = forallb (fun e => Os.no_io_failure (snd e)) es.
Proof. destruct a; try discriminate; reflexivity. Qed.

Lemma no_io_failure_walk n : forall p,
  Os.no_io_failure n = true -> snd (Os.descend true p n) = None.
Proof.
  induction n as [| |a es IH] using node_nested_ind; intros p; auto.
  destruct (Os.can_open a) eqn:Ha.
  - rewrite (@no_io_failure_opened a es Ha), (@descend_opened true p a es Ha).
    rewrite forallb_forall. intros Hall.
    apply walk_entries_no_error. intros name m Hin.
    apply (IH name m Hin). apply (Hall (name, m) Hin).
  - rewrite (@descend_refused true p a es Ha).
    destruct a; try discriminate; reflexivity.
Qed.

(** ** Recursive search (C3, C4) *)

(** What [search] returns on a directory whose walk meets no I/O error. *)
Lemma search_run (w : world) (D s : string) (n : Os.node) :
  Contract.directory_at w D n ->
  Os.no_io_failure n = true ->
  Contract.search D s w
  = (Ret (match Contract.matching s (fst (Os.descend true D n)) with
          | [] => 204%Z
          | _ => 200%Z
          end,
          Contract.matching s (fst (Os.descend true D n))), w).
Proof.
  intros [Hstat Hdir] Hok.
  unfold Contract.search, with_local. rewrite searchFiles_run, Hstat.
  cbn [fst]. destruct n as [| |a es]; try discriminate. cbv zeta.
  rewrite (no_io_failure_walk _ D Hok). reflexivity.
Qed.

(** C3. For a directory [D] (the node [n]) and a substring [s], when no
    directory below [D] fails with an I/O error, [search D s] returns
    exactly the entries of [D] and of the directories below it that can be
    opened (those that refuse are passed over, the search does not fail)
    whose file name contains [s] literally; the status is NoMatches (204)
    if and only if that result is empty and Success (200) otherwise. *)
Theorem search_collects_the_matching_entries
        (w : world) (D s : string) (n : Os.node) :
  Contract.directory_at w D n ->
  Os.no_io_failure n = true ->
  exists status results,
    Contract.search D s w = (Ret (status, results), w) /\
    (forall e, In e results <->
               Contract.under D n e /\ Contract.occurs_in s (Cxx.filename e)) /\
    (status = Contract.NoMatches <-> results = []) /\
    (status = Contract.Success <-> results <> []).
Proof.
  intros Hat Hok. eexists _, _. split; [apply (search_run s Hat Hok)|].
  split; [|split].
  - intros e. rewrite matching_In. split; intros [Hin Hocc]; split; auto.
    + eapply descend_sound; eauto.
    + apply descend_complete; auto using no_io_failure_walk.
  - destruct (Contract.matching s (fst (Os.descend true D n)));
      split; intros; try reflexivity; discriminate.
  - destruct (Contract.matching s (fst (Os.descend true D n)));
      split; intros H; try reflexivity; try discriminate.
    now contradiction H.
Qed.

Lemma search_collects_the_matching_entries_witness :
  exists status results,
    Contract.search "/home" ".txt" (Examples.world_with "")
    = (Ret (status, results), Examples.world_with "") /\
    (forall e, In e results <->
       Contract.under "/home" Examples.home e /\
       Contract.occurs_in ".txt" (Cxx.filename e)) /\
    (status = 204%Z <-> results = []) /\
    (status = 200%Z <-> results <> []).
Proof.
  apply (@search_collects_the_matching_entries
           (Examples.world_with "") "/home" ".txt" Examples.home).
  - split; reflexivity.
  - reflexivity.
Defined.

(** [/home/private] refuses to be opened: it is listed, what it holds is
    not, and the search succeeds. *)
Example search_passes_over_refusing_directory :
  fst (Contract.search "/home" ".txt" (Examples.world_with ""))
  = Ret (200%Z, ["/home/notes.txt"; "/home/docs/cv.txt"]) /\
  fst (Contract.search "/home" "private" (Examples.world_with ""))
  = Ret (200%Z, ["/home/private"]) /\
  fst (Contract.search "/home" "secret" (Examples.world_with ""))
  = Ret (204%Z, []).
Proof. repeat split. Qed.

(** The scenario of the specification: [/tmp/t] with [a.txt], [b.log] and
    [sub/c.txt]. *)
Example search_txt_scenario :
  let w :=
    set_root (Os.Directory Os.Readable
      [("tmp", Os.Directory Os.Readable
         [("t", Os.Directory Os.Readable
            [("a.txt", Os.RegularFile); ("b.log", Os.RegularFile);
             ("sub", Os.Directory Os.Readable [("c.txt", Os.RegularFile)])])])])
      (Examples.world_with "") in
  fst (Contract.search "/tmp/t" ".txt" w)
  = Ret (200%Z, ["/tmp/t/a.txt"; "/tmp/t/sub/c.txt"]) /\
  fst (Contract.search "/tmp/t" ".TXT" w) = Ret (204%Z, []).
Proof. split; reflexivity. Qed.

(** C4, refuted on an empty directory: [search "/e" ""] in the example
    tree. [/e] is an existing directory, the status is NoMatches (204) and
    not Success (200). *)
Lemma search_empty_substring_in_empty_directory :
  Contract.directory_at (Examples.world_with "") "/e"
    (Os.Directory Os.Readable []) /\
  fst (Contract.search "/e" "" (Examples.world_with ""))
  = Ret (Contract.NoMatches, []) /\
  forall results,
    fst (Contract.search "/e" "" (Examples.world_with ""))
    <> Ret (Contract.Success, results).
Proof.
  split; [split; reflexivity|]. split; [reflexivity|].
  intros results. vm_compute. discriminate.
Qed.

(** C4, amended. For a directory [D] (the node [n]) with no I/O error
    below it, [search D ""] returns every entry of [D] and of the
    directories below it that can be opened, and nothing else; the status is
    Success (200) when there is such an entry and NoMatches (204) when there
    is none. *)
Theorem search_empty_substring_lists_every_entry
        (w : world) (D : string) (n : Os.node) :
  Contract.directory_at w D n ->
  Os.no_io_failure n = true ->
  exists status results,
    Contract.search D "" w = (Ret (status, results), w) /\
    (forall e, In e results <-> Contract.under D n e) /\
    (status = Contract.Success <-> exists e, Contract.under D n e) /\
    (status = Contract.NoMatches <-> forall e, ~ Contract.under D n e).
Proof.
  intros Hat Hok. eexists _, _. split; [apply (search_run "" Hat Hok)|].
  rewrite matching_empty_pattern.
  assert (Hall : forall e, In e (fst (Os.descend true D n))
                           <-> Contract.under D n e).
  { intros e. split; [apply descend_sound|].
    intros Hu. apply descend_complete; auto using no_io_failure_walk. }
  split; [exact Hall|].
  destruct (fst (Os.descend true D n)) as [|e l]; split; split;
    try discriminate; try reflexivity.
  - intros [e He]. now apply Hall in He.
  - intros _ e He. now apply Hall in He.
  - intros _. exists e. apply Hall. now left.
  - intros Hnone. destruct (Hnone e). apply Hall. now left.
Qed.

Lemma search_empty_substring_lists_every_entry_witness :
  exists status results,
    Contract.search "/home/docs" "" (Examples.world_with "")
    = (Ret (status, results), Examples.world_with "") /\
    (forall e, In e results <->
       Contract.under "/home/docs"
         (Os.Directory Os.Readable [("cv.txt", Os.RegularFile)]) e) /\
    (status = 200%Z <->
     exists e, Contract.under "/home/docs"
                 (Os.Directory Os.Readable [("cv.txt", Os.RegularFile)]) e) /\
    (status = 204%Z <->
     forall e, ~ Contract.under "/home/docs"
                   (Os.Directory Os.Readable [("cv.txt", Os.RegularFile)]) e).
Proof.
  apply (@search_empty_substring_lists_every_entry
           (Examples.world_with "") "/home/docs").
  - split; reflexivity.
  - reflexivity.
Defined.

(** ** Paths *)

Lemma string_app_assoc (a b c : string) : (a ++ b) ++ c = a ++ b ++ c.
Proof. induction a as [|x a IH]; simpl; [reflexivity | now rewrite IH]. Qed.

Lemma string_app_nil_r (a : string) : a ++ "" = a.
Proof. induction a as [|x a IH]; simpl; [reflexivity | now rewrite IH]. Qed.


Lemma string_app_empty (a b : string) : a ++ b = "" -> a = "" /\ b = "".
Proof. destruct a; simpl; [auto | discriminate]. Qed.

Lemma split_path_separator (a b cur : string) :
  Cxx.split_path (a ++ String "/" b) cur
  = (Cxx.split_path a cur ++ Cxx.split_path b "")%list.
Proof.
  revert cur. induction a as [|c a IH]; intros cur; simpl.
  - now destruct (String.eqb cur "").
  - destruct (Ascii.eqb c "/").
    + destruct (String.eqb cur ""); simpl; now rewrite IH.
    + apply IH.
Qed.

Lemma split_path_name (name cur : string) :
  Contract.no_separator name = true ->
  Cxx.split_path name cur
  = if String.eqb (cur ++ name) "" then [] else [cur ++ name].
Proof.
  revert cur. induction name as [|c name IH]; intros cur; simpl.
  - intros _. now rewrite string_app_nil_r.
  - destruct (Ascii.eqb c "/"); simpl; [discriminate|]. intros Hn.
    rewrite (IH _ Hn), string_app_assoc. reflexivity.
Qed.

Lemma components_name (name : string) :
  Contract.is_name name = true -> Cxx.components name = [name].
Proof.
  unfold Contract.is_name, Cxx.components. intros H.
  apply andb_prop in H as [Hne Hsep].
  rewrite (@split_path_name name "" Hsep). simpl.
  now destruct (String.eqb name "").
Qed.

Lemma ends_with_separator_split (p : string) :
  Cxx.ends_with_separator p = true -> exists p', p = p' ++ "/".
Proof.
  induction p as [|c p IH]; [discriminate|]. simpl.
  destruct p as [|d p].
  - intros E. apply Ascii.eqb_eq in E as ->. now exists "".
  - intros E. destruct (IH E) as [p' Hp']. exists (String c p').
    simpl. now rewrite Hp'.
Qed.

(** The names of [D/name] are those of [D], then [name]. *)
Lemma components_path_append (D name : string) :
  D <> "" -> Contract.is_name name = true ->
  Cxx.components (Cxx.path_append D name)
  = (Cxx.components D ++ [name])%list.
Proof.
  intros HD Hname. pose proof (@components_name name Hname) as Hc.
  unfold Cxx.path_append, Cxx.components in *.
  destruct (String.eqb_spec D ""); [contradiction|].
  destruct (Cxx.ends_with_separator D) eqn:Hsep.
  - apply ends_with_separator_split in Hsep as [D' ->].
    rewrite string_app_assoc. simpl.
    rewrite !split_path_separator, Hc. simpl. now rewrite app_nil_r.
  - simpl. now rewrite split_path_separator, Hc.
Qed.


(** The file name of [D/name] is [name], as the search reads it. *)
Lemma filename_from_app (a b cur : string) :
  Cxx.filename_from (a ++ b) cur = Cxx.filename_from b (Cxx.filename_from a cur).
Proof.
  revert cur. induction a as [|c a IH]; intros cur; simpl; [reflexivity|].
  destruct (Ascii.eqb c "/"); apply IH.
Qed.

Lemma filename_from_name (name cur : string) :
  Contract.no_separator name = true ->
  Cxx.filename_from name cur = cur ++ name.
Proof.
  revert cur. induction name as [|c name IH]; intros cur; simpl.
  - intros _. now rewrite string_app_nil_r.
  - destruct (Ascii.eqb c "/"); simpl; [discriminate|]. intros Hn.
    rewrite (IH _ Hn), string_app_assoc. reflexivity.
Qed.

Lemma filename_path_append (D name : string) :
  D <> "" -> Contract.is_name name = true ->
  Cxx.filename (Cxx.path_append D name) = name.
Proof.
  unfold Contract.is_name, Cxx.filename, Cxx.path_append.
  intros HD H. apply andb_prop in H as [_ Hsep].
  destruct (String.eqb_spec D ""); [contradiction|].
  destruct (Cxx.ends_with_separator D) eqn:E.
  - apply ends_with_separator_split in E as [D' ->].
    rewrite string_app_assoc, !filename_from_app. simpl.
    now apply filename_from_name.
  - rewrite filename_from_app. simpl. now apply filename_from_name.
Qed.

(** ** The tree under updates *)

Lemma assoc_update_entry name f es :
  Os.assoc name (Os.update_entry name f es) = option_map f (Os.assoc name es).
Proof.
  induction es as [|[k m] es IH]; simpl; [reflexivity|].
  destruct (String.eqb k name) eqn:E; simpl; rewrite E; auto.
Qed.

Lemma assoc_In name es m :
  Os.assoc name es = Some m -> In name (map fst es).
Proof.
  induction es as [|[k m'] es IH]; simpl; [discriminate|].
  destruct (String.eqb_spec k name); auto.
Qed.



Lemma drop_entry_not_In name es : ~ In name (map fst (Os.drop_entry name es)).
Proof.
  unfold Os.drop_entry. rewrite in_map_iff. intros [[k m] [<- Hin]].
  apply filter_In in Hin as [_ Hk]. simpl in Hk.
  now rewrite String.eqb_refl in Hk.
Qed.

(** The directory reached by [cs] after its entries were altered. *)
Lemma status_alter_dir cs g : forall n a es,
  Os.status cs n = Ret (Some (Os.Directory a es)) ->
  Os.status cs (Os.alter_dir cs g n) = Ret (Some (Os.Directory a (g es))).
Proof.
  induction cs as [|c cs IH]; intros n a es; simpl.
  - intros E. injection E as ->. reflexivity.
  - destruct n as [| |[] es0]; try discriminate;
      (destruct (Os.assoc c es0) as [m|] eqn:A; [|discriminate]);
      intros E; simpl; rewrite assoc_update_entry, A; simpl; now apply IH.
Qed.

(** ** Running the calls that change the tree *)

Lemma createFile_run (P : string) (w : world) :
  Facade.createFile P w =
  match Os.ofstream P (root w) with
  | (Ret true, n') => (Ret 200%Z, set_root n' w)
  | (Ret false, n') =>
      (Ret 500%Z,
       put_cerr ("Error: Unable to create file." ++ endl) (set_root n' w))
  | (Throw e, n') =>
      (Ret 500%Z,
       put_cerr ("Error creating file: " ++ what e ++ endl) (set_root n' w))
  end.
Proof.
  unfold Facade.createFile, try_catch, bind, fs.ofstream, in_world, on_root.
  simpl. now destruct (Os.ofstream P (root w)) as [[[|]|e] n'].
Qed.

Lemma deleteFile_run (P : string) (w : world) :
  Facade.deleteFile P w =
  match fst (Os.stat P (root w)) with
  | Ret None =>
      (Ret 404%Z, put_cerr ("Error: File does not exist." ++ endl) w)
  | Ret (Some Os.RegularFile) =>
      match Os.remove P (root w) with
      | (Ret _, n') => (Ret 200%Z, set_root n' w)
      | (Throw e, n') =>
          if is_filesystem_error e
          then (Ret 500%Z,
                put_cerr ("Error deleting file: " ++ what e ++ endl)
                         (set_root n' w))
          else (Throw e, set_root n' w)
      end
  | Ret (Some _) =>
      (Ret 400%Z, put_cerr ("Error: Path is not a regular file." ++ endl) w)
  | Throw e =>
      (Ret 500%Z, put_cerr ("Error deleting file: " ++ what e ++ endl) w)
  end.
Proof.
  assert (Hs : with_world (world_of w) w = w) by reflexivity.
  unfold Facade.deleteFile, try_catch.
  destruct (fst (Os.stat P (root w))) as [o|e] eqn:E.
  - destruct o as [[| |a es]|];
      run_with (@exists_found _ _ w Hs P _ E); try reflexivity;
      run_with (@is_regular_file_found _ _ w Hs P _ E); try reflexivity.
    unfold bind, fs.remove, in_world, on_root. simpl.
    now destruct (Os.remove P (root w)) as [[b|e] n'].
  - run_with (@exists_failed _ _ w Hs P _ E).
    now rewrite (stat_throws_filesystem_error _ _ E).
Qed.

Lemma stat_nonempty (p : string) (n : Os.node) :
  p <> "" -> Os.stat p n = (Os.status (Cxx.components p) n, n).
Proof.
  intros Hp. unfold Os.stat. now destruct (String.eqb_spec p "").
Qed.

Lemma path_append_nonempty (D name : string) :
  Contract.is_name name = true -> Cxx.path_append D name <> "".
Proof.
  unfold Contract.is_name, Cxx.path_append. intros H.
  apply andb_prop in H as [Hne _].
  destruct (String.eqb_spec name ""); [discriminate|].
  destruct (String.eqb D ""); [assumption|].
  destruct (Cxx.ends_with_separator D); intros E;
    apply string_app_empty in E as [_ E]; [contradiction | discriminate].
Qed.

Section LastName.
Variables (P : string) (pcs : list string) (name : string).
Hypothesis names_of_P : Cxx.components P = (pcs ++ [name])%list.




End LastName.

(** ** Create, list, delete (C5) *)






(** ** The two facades side by side (C8) *)

Lemma reports_cerr w w' s (r : result unit) :
  cerr w' = cerr w ->
  Contract.reports_success w (r, put_cerr s w') = false.
Proof.
  intros E. unfold Contract.reports_success. destruct r; [|reflexivity].
  simpl. rewrite E, length_app. simpl. apply Nat.eqb_neq. lia.
Qed.

Lemma reports_cout w w' s :
  cerr w' = cerr w ->
  Contract.reports_success w (Ret tt, put_cout s w') = true.
Proof.
  intros E. unfold Contract.reports_success. simpl. rewrite E.
  apply Nat.eqb_refl.
Qed.

Lemma agree_failure w wc wp status (r : result unit) :
  root wc = root wp ->
  Contract.succeeded status = false ->
  Contract.reports_success w (r, wp) = false ->
  Contract.agree w (Ret status, wc) (r, wp).
Proof. intros Hr Hs Hp. split; simpl; congruence. Qed.

Lemma agree_success w wc wp status :
  root wc = root wp ->
  Contract.succeeded status = true ->
  Contract.reports_success w (Ret tt, wp) = true ->
  Contract.agree w (Ret status, wc) (Ret tt, wp).
Proof. intros Hr Hs Hp. split; simpl; congruence. Qed.

Create HintDb facades.
#[local] Hint Resolve reports_cerr reports_cout : facades.

(** What the printing operations do, by what the system call returns. *)
Lemma printing_createFile_run P w :
  Printing.createFile P w =
  match Os.ofstream P (root w) with
  | (Ret true, n') =>
      (Ret tt, put_cout ("File created: " ++ P ++ endl) (set_root n' w))
  | (Ret false, n') =>
      (Ret tt, put_cerr ("Error creating file: " ++ P ++ endl) (set_root n' w))
  | (Throw e, n') => (Throw e, set_root n' w)
  end.
Proof.
  unfold Printing.createFile, bind, fs.ofstream, in_world, on_root. simpl.
  now destruct (Os.ofstream P (root w)) as [[[|]|e] n'].
Qed.

Lemma printing_deleteFile_run P w :
  Printing.deleteFile P w =
  match Os.remove P (root w) with
  | (Ret true, n') =>
      (Ret tt, put_cout ("File deleted: " ++ P ++ endl) (set_root n' w))
  | (Ret false, n') =>
      (Ret tt, put_cerr ("Error deleting file: " ++ P ++ endl) (set_root n' w))
  | (Throw e, n') => (Throw e, set_root n' w)
  end.
Proof.
  unfold Printing.deleteFile, bind, fs.remove, in_world, on_root. simpl.
  now destruct (Os.remove P (root w)) as [[[|]|e] n'].
Qed.

Lemma printing_createDirectory_run P w :
  Printing.createDirectory P w =
  match Os.create_directory P (root w) with
  | (Ret true, n') =>
      (Ret tt, put_cout ("Directory created: " ++ P ++ endl) (set_root n' w))
  | (Ret false, n') =>
      (Ret tt,
       put_cerr ("Error creating directory: " ++ P ++ endl) (set_root n' w))
  | (Throw e, n') => (Throw e, set_root n' w)
  end.
Proof.
  unfold Printing.createDirectory, bind, fs.create_directory, in_world, on_root.
  simpl. now destruct (Os.create_directory P (root w)) as [[[|]|e] n'].
Qed.

Lemma printing_deleteDirectory_run P w :
  Printing.deleteDirectory P w =
  match Os.remove_all P (root w) with
  | (Ret 0, n') =>
      (Ret tt,
       put_cerr ("Error deleting directory: " ++ P ++ endl) (set_root n' w))
  | (Ret (S _), n') =>
      (Ret tt, put_cout ("Directory deleted: " ++ P ++ endl) (set_root n' w))
  | (Throw e, n') => (Throw e, set_root n' w)
  end.
Proof.
  unfold Printing.deleteDirectory, bind, fs.remove_all, in_world, on_root.
  simpl. now destruct (Os.remove_all P (root w)) as [[[|k]|e] n'].
Qed.

Lemma printing_rename_run old_p new_p w :
  Printing.rename old_p new_p w =
  match Os.rename old_p new_p (root w) with
  | (Ret _, n') =>
      (Ret tt,
       put_cout ("Renamed from " ++ old_p ++ " to " ++ new_p ++ endl)
                (set_root n' w))
  | (Throw e, n') =>
      if is_filesystem_error e
      then (Ret tt,
            put_cerr ("Error renaming: " ++ what e ++ endl) (set_root n' w))
      else (Throw e, set_root n' w)
  end.
Proof.
  unfold Printing.rename, try_catch, bind, fs.rename, in_world, on_root.
  simpl. now destruct (Os.rename old_p new_p (root w)) as [[[]|e] n'].
Qed.

(** What the status-code operations do, likewise. *)
Lemma createDirectory_run P w :
  Facade.createDirectory P w =
  match fst (Os.stat P (root w)) with
  | Ret (Some _) =>
      (Ret 400%Z, put_cerr ("Error: Directory already exists." ++ endl) w)
  | Ret None =>
      match Os.create_directory P (root w) with
      | (Ret _, n') => (Ret 200%Z, set_root n' w)
      | (Throw e, n') =>
          if is_filesystem_error e
          then (Ret 500%Z,
                put_cerr ("Error creating directory: " ++ what e ++ endl)
                         (set_root n' w))
          else (Throw e, set_root n' w)
      end
  | Throw e =>
      (Ret 500%Z,
       put_cerr ("Error creating directory: " ++ what e ++ endl) w)
  end.
Proof.
  assert (Hs : with_world (world_of w) w = w) by reflexivity.
  unfold Facade.createDirectory, try_catch.
  destruct (fst (Os.stat P (root w))) as [o|e] eqn:E.
  - destruct o as [m|];
      run_with (@exists_found _ _ w Hs P _ E); try reflexivity.
    unfold bind, fs.create_directory, in_world, on_root. simpl.
    now destruct (Os.create_directory P (root w)) as [[b|e] n'].
  - run_with (@exists_failed _ _ w Hs P _ E).
    now rewrite (stat_throws_filesystem_error _ _ E).
Qed.

Lemma deleteDirectory_run P w :
  Facade.deleteDirectory P w =
  match fst (Os.stat P (root w)) with
  | Ret None =>
      (Ret 404%Z, put_cerr ("Error: Directory does not exist." ++ endl) w)
  | Ret (Some (Os.Directory _ _)) =>
      match Os.remove_all P (root w) with
      | (Ret _, n') => (Ret 200%Z, set_root n' w)
      | (Throw e, n') =>
          if is_filesystem_error e
          then (Ret 500%Z,
                put_cerr ("Error deleting directory: " ++ what e ++ endl)
                         (set_root n' w))
          else (Throw e, set_root n' w)
      end
  | Ret (Some _) =>
      (Ret 400%Z, put_cerr ("Error: Path is not a directory." ++ endl) w)
  | Throw e =>
      (Ret 500%Z,
       put_cerr ("Error deleting directory: " ++ what e ++ endl) w)
  end.
Proof.
  assert (Hs : with_world (world_of w) w = w) by reflexivity.
  unfold Facade.deleteDirectory, try_catch.
  destruct (fst (Os.stat P (root w))) as [o|e] eqn:E.
  - destruct o as [[| |a es]|];
      run_with (@exists_found _ _ w Hs P _ E); try reflexivity;
      run_with (@is_directory_found _ _ w Hs P _ E); try reflexivity.
    unfold bind, fs.remove_all, in_world, on_root. simpl.
    now destruct (Os.remove_all P (root w)) as [[b|e] n'].
  - run_with (@exists_failed _ _ w Hs P _ E).
    now rewrite (stat_throws_filesystem_error _ _ E).
Qed.

Lemma rename_run old_p new_p w :
  Facade.rename old_p new_p w =
  match fst (Os.stat old_p (root w)) with
  | Ret None =>
      (Ret 404%Z, put_cerr ("Error: Source path does not exist." ++ endl) w)
  | Ret (Some _) =>
      match Os.rename old_p new_p (root w) with
      | (Ret _, n') => (Ret 200%Z, set_root n' w)
      | (Throw e, n') =>
          if is_filesystem_error e
          then (Ret 500%Z, put_cerr (what e ++ endl) (set_root n' w))
          else (Throw e, set_root n' w)
      end
  | Throw e => (Ret 500%Z, put_cerr (what e ++ endl) w)
  end.
Proof.
  assert (Hs : with_world (world_of w) w = w) by reflexivity.
  unfold Facade.rename, try_catch.
  destruct (fst (Os.stat old_p (root w))) as [o|e] eqn:E.
  - destruct o as [m|];
      run_with (@exists_found _ _ w Hs old_p _ E); try reflexivity.
    unfold bind, fs.rename, in_world, on_root. simpl.
    now destruct (Os.rename old_p new_p (root w)) as [[b|e] n'].
  - run_with (@exists_failed _ _ w Hs old_p _ E).
    now rewrite (stat_throws_filesystem_error _ _ E).
Qed.

(** What the system calls return, by what [stat] finds. *)
Lemma remove_cases P n :
  match fst (Os.stat P n) with
  | Throw e => Os.remove P n = (Throw e, n)
  | Ret None => Os.remove P n = (Ret false, n)
  | Ret (Some (Os.Directory _ (_ :: _))) => exists e, Os.remove P n = (Throw e, n)
  | Ret (Some _) => fst (Os.remove P n) <> Ret false
  end.
Proof.
  unfold Os.remove, bind, gets. rewrite stat_run.
  destruct (fst (Os.stat P n)) as [[[| |a [|x es]]|]|e]; try reflexivity;
    destruct (Cxx.components P); simpl; try discriminate;
    try (eexists; reflexivity);
    destruct (Os.writable _ n); simpl; try discriminate; eexists; reflexivity.
Qed.

Lemma remove_all_cases P n :
  match fst (Os.stat P n) with
  | Throw e => Os.remove_all P n = (Throw e, n)
  | Ret None => Os.remove_all P n = (Ret 0, n)
  | Ret (Some _) => fst (Os.remove_all P n) <> Ret 0
  end.
Proof.
  unfold Os.remove_all, bind, gets. rewrite stat_run.
  destruct (fst (Os.stat P n)) as [[m|]|e]; try reflexivity.
  destruct (Os.purge m) as [[m' k] [ec|]];
    destruct (Cxx.components P); simpl; try discriminate.
  destruct (Os.writable _ n); simpl; [|discriminate].
  intros E. injection E. lia.
Qed.

Lemma create_directory_cases P n :
  match fst (Os.stat P n) with
  | Throw e => Os.create_directory P n = (Throw e, n)
  | Ret (Some (Os.Directory _ _)) => Os.create_directory P n = (Ret false, n)
  | Ret (Some _) => exists e, Os.create_directory P n = (Throw e, n)
  | Ret None => fst (Os.create_directory P n) <> Ret false
  end.
Proof.
  unfold Os.create_directory, bind.
  destruct (String.eqb_spec P "") as [->|HP]; [simpl; discriminate|].
  rewrite stat_run.
  destruct (fst (Os.stat P n)) as [[[| |a es]|]|e]; try reflexivity;
    try (eexists; reflexivity).
  destruct (Os.status (Os.parent_of (Cxx.components P)) n)
    as [[[| |a es]|]|e]; simpl; try discriminate.
  destruct (Os.can_write a); discriminate.
Qed.

Lemma agree_both_thrown w wc wp e e' :
  root wc = root wp ->
  Contract.agree w (Throw e, wc) (Throw e', wp).
Proof. intros Hr. split; [exact Hr | reflexivity]. Qed.

Ltac open_case H :=
  lazymatch type of H with
  | ex _ => let e := fresh "e" in destruct H as [e H]
  | _ => idtac
  end.

Ltac settle_agreement :=
  first [ apply agree_both_thrown; reflexivity
        | apply agree_success;
          [ reflexivity | reflexivity | apply reports_cout; reflexivity ]
        | apply agree_failure;
          [ reflexivity | reflexivity
          | first [ apply reports_cerr; reflexivity | reflexivity ] ] ].

Lemma agree_createFile P w :
  Contract.agree w (Facade.createFile P w) (Printing.createFile P w).
Proof.
  rewrite createFile_run, printing_createFile_run.
  destruct (Os.ofstream P (root w)) as [[[|]|e] n']; settle_agreement.
Qed.

Lemma agree_createDirectory P w :
  Contract.agree w (Facade.createDirectory P w) (Printing.createDirectory P w).
Proof.
  rewrite createDirectory_run, printing_createDirectory_run.
  pose proof (create_directory_cases P (root w)) as Hmk.
  destruct (fst (Os.stat P (root w))) as [[[| |a es]|]|e];
    open_case Hmk; try (rewrite Hmk; settle_agreement).
  destruct (Os.create_directory P (root w)) as [[[|]|e] n']; simpl in Hmk;
    try congruence; try settle_agreement.
  destruct (is_filesystem_error e); settle_agreement.
Qed.

(** What the checks of the status-code facade have found. *)
Lemma exists_true (P : string) (w : world) :
  fs.exists_ P w = (Ret true, w) ->
  exists m, fst (Os.stat P (root w)) = Ret (Some m).
Proof.
  intros H.
  destruct (fst (Os.stat P (root w))) as [[m|]|e] eqn:E.
  - now exists m.
  - rewrite (@exists_found _ _ w (with_world_same_world w) P _ E) in H.
    discriminate.
  - rewrite (@exists_failed _ _ w (with_world_same_world w) P _ E) in H.
    discriminate.
Qed.

Lemma is_regular_file_true (P : string) (w : world) :
  fs.is_regular_file P w = (Ret true, w) ->
  fst (Os.stat P (root w)) = Ret (Some Os.RegularFile).
Proof.
  intros H.
  destruct (fst (Os.stat P (root w))) as [[m|]|e] eqn:E.
  - rewrite (@is_regular_file_found _ _ w (with_world_same_world w) P _ E) in H.
    destruct m; simpl in H; congruence.
  - rewrite (@is_regular_file_found _ _ w (with_world_same_world w) P _ E) in H.
    discriminate.
  - unfold fs.is_regular_file, Os.is_regular_file in H.
    rewrite (@stat_then_run _ _ w (with_world_same_world w) P) in H
      by reflexivity.
    simpl in H. rewrite E in H. discriminate.
Qed.

Lemma is_directory_true (P : string) (w : world) :
  fs.is_directory P w = (Ret true, w) ->
  exists a es, fst (Os.stat P (root w)) = Ret (Some (Os.Directory a es)).
Proof.
  intros H.
  destruct (fst (Os.stat P (root w))) as [[m|]|e] eqn:E.
  - rewrite (@is_directory_found _ _ w (with_world_same_world w) P _ E) in H.
    destruct m as [| |a es]; simpl in H; try congruence. now exists a, es.
  - rewrite (@is_directory_found _ _ w (with_world_same_world w) P _ E) in H.
    discriminate.
  - unfold fs.is_directory, Os.is_directory in H.
    rewrite (@stat_then_run _ _ w (with_world_same_world w) P) in H
      by reflexivity.
    simpl in H. rewrite E in H. discriminate.
Qed.

Lemma agree_deleteFile P w :
  fs.is_regular_file P w = (Ret true, w) ->
  Contract.agree w (Facade.deleteFile P w) (Printing.deleteFile P w).
Proof.
  intros Hfile. apply is_regular_file_true in Hfile.
  rewrite deleteFile_run, printing_deleteFile_run.
  pose proof (remove_cases P (root w)) as Hrm. rewrite Hfile in *.
  destruct (Os.remove P (root w)) as [[[|]|e] n']; simpl in Hrm;
    try congruence; try settle_agreement.
  destruct (is_filesystem_error e); settle_agreement.
Qed.

Lemma agree_deleteDirectory P w :
  fs.is_directory P w = (Ret true, w) ->
  Contract.agree w (Facade.deleteDirectory P w) (Printing.deleteDirectory P w).
Proof.
  intros Hdir. apply is_directory_true in Hdir as [a [es Hdir]].
  rewrite deleteDirectory_run, printing_deleteDirectory_run.
  pose proof (remove_all_cases P (root w)) as Hrm. rewrite Hdir in *.
  destruct (Os.remove_all P (root w)) as [[[|k]|e] n']; simpl in Hrm;
    try congruence; try settle_agreement.
  destruct (is_filesystem_error e); settle_agreement.
Qed.

Lemma agree_rename old_p new_p w :
  fs.exists_ old_p w = (Ret true, w) ->
  Contract.agree w (Facade.rename old_p new_p w)
                 (Printing.rename old_p new_p w).
Proof.
  intros Hthere. apply exists_true in Hthere as [m Hthere].
  rewrite rename_run, printing_rename_run, Hthere.
  destruct (Os.rename old_p new_p (root w)) as [[[]|e] n'];
    try settle_agreement.
  destruct (is_filesystem_error e); settle_agreement.
Qed.

Section PrintingReads.
Context {S : Type} `{Process S}.
Variable s : S.
Hypothesis s_same : with_world (world_of s) s = s.
Variable p : string.

Lemma invalid_directory_run :
  Printing.invalid_directory p s =
  match fst (Os.stat p (root (world_of s))) with
  | Ret (Some m) => (Ret (negb (Os.is_dir m)), s)
  | Ret None => (Ret true, s)
  | Throw e => (Throw e, s)
  end.
Proof.
  unfold Printing.invalid_directory.
  destruct (fst (Os.stat p (root (world_of s)))) as [[m|]|e] eqn:E.
  - run_with (@exists_found _ _ s s_same p _ E).
    now run_with (@is_directory_found _ _ s s_same p _ E).
  - now run_with (@exists_found _ _ s s_same p _ E).
  - now run_with (@exists_failed _ _ s s_same p _ E).
Qed.

End PrintingReads.

Lemma for_each_cout (f : string -> string) (l : list string) : forall w,
  exists w', for_each l (fun x => cout_put (f x)) w = (Ret tt, w') /\
             root w' = root w /\ cerr w' = cerr w.
Proof.
  induction l as [|x l IH]; intros w; simpl.
  - now exists w.
  - destruct (IH (put_cout (f x) w)) as [w' [Hrun [Hr Hc]]].
    exists w'. unfold bind. split; [exact Hrun | auto].
Qed.

Lemma for_each_print_matches (query : string) (l : list string) :
  forall (w : world) (found : bool),
  exists w' found',
    for_each l (fun entry =>
      match Cxx.find query (Cxx.filename entry) with
      | Some _ =>
          cout_put (Printing.quoted entry ++ endl) ;;
          modify (fun s : world * bool => (fst s, true))
      | None => ret tt
      end) (w, found) = (Ret tt, (w', found')) /\
    root w' = root w /\ cerr w' = cerr w.
Proof.
  induction l as [|x l IH]; intros w found; simpl.
  - now exists w, found.
  - unfold bind at 1. destruct (Cxx.find query (Cxx.filename x)).
    + destruct (IH (put_cout (Printing.quoted x ++ endl) w) true)
        as [w' [found' [Hrun [Hr Hc]]]].
      exists w', found'. split; [exact Hrun | auto].
    + apply IH.
Qed.

Lemma walk_entries_ext (walk1 walk2 : string -> Os.node -> Os.dirstream) p es :
  (forall name m, In (name, m) es ->
                  walk1 (Cxx.path_append p name) m
                  = walk2 (Cxx.path_append p name) m) ->
  Os.walk_entries walk1 p es = Os.walk_entries walk2 p es.
Proof.
  induction es as [|[k m] rest IH]; simpl; [reflexivity|]. intros Hsame.
  rewrite (Hsame k m (or_introl eq_refl)), IH; [reflexivity|].
  intros name m' Hin. apply Hsame. now right.
Qed.

(** Without a directory that refuses, the option changes nothing. *)
Lemma descend_without_refusal n : forall p,
  Os.no_permission_denied n = true ->
  Os.descend false p n = Os.descend true p n.
Proof.
  induction n as [| |a es IH] using node_nested_ind; intros p; auto.
  destruct (Os.can_open a) eqn:Ha.
  - rewrite !(@descend_opened _ p a es Ha).
    replace (Os.no_permission_denied (Os.Directory a es))
      with (forallb (fun e => Os.no_permission_denied (snd e)) es)
      by (destruct a; try discriminate; reflexivity).
    rewrite forallb_forall. intros Hall.
    apply walk_entries_ext. intros name m Hin.
    apply (IH name m Hin). apply (Hall (name, m) Hin).
  - destruct a; try discriminate; reflexivity.
Qed.

Lemma agree_listDirectoryContents path w v :
  Contract.agree w
    (Contract.on_world (Facade.listDirectoryContents path (w, v)))
    (Printing.listDirectoryContents path w).
Proof.
  assert (Hs : with_world (world_of w) w = w) by reflexivity.
  rewrite listDirectoryContents_run. unfold Printing.listDirectoryContents.
  unfold bind at 1. rewrite (@invalid_directory_run _ _ w Hs path).
  simpl world_of.
  destruct (fst (Os.stat path (root w))) as [[[| |a es]|]|e] eqn:E;
    cbv beta iota delta [negb Os.is_dir]; unfold Contract.on_world;
    try settle_agreement.
  destruct (Os.can_open a) eqn:Ha.
  - run_with (@directory_iterator_opened _ _ w Hs path _ _ E Ha).
    destruct (for_each_cout
                (fun entry => Printing.quoted (Cxx.filename entry) ++ endl)
                (map (fun e => Cxx.path_append path (fst e)) es) w)
      as [w' [-> [Hr Hc]]].
    split; simpl; [now rewrite Hr|].
    unfold Contract.reports_success. simpl. rewrite Hc.
    now rewrite Nat.eqb_refl.
  - rewrite (bind_throw_run _ _ _
      (@directory_iterator_refused _ _ w Hs path _ _ E Ha)).
    settle_agreement.
Qed.

Lemma range_for_run {S} `{Process S} (entries : list string)
      (err : option errc) (body : string -> M S unit) (s s' : S) :
  for_each entries body s = (Ret tt, s') ->
  fs.range_for (entries, err) body s
  = match err with
    | Some ec => (Throw (filesystem_error ec), s')
    | None => (Ret tt, s')
    end.
Proof.
  intros E. unfold fs.range_for. simpl fst. simpl snd.
  rewrite (bind_ret_run _ _ _ E). now destruct err.
Qed.

Lemma agree_searchFiles path pattern w v :
  Contract.denied_below (fst (Os.stat path (root w))) = false ->
  Contract.agree w
    (Contract.on_world (Facade.searchFiles path pattern (w, v)))
    (Printing.searchFiles path pattern w).
Proof.
  intros Hnot.
  assert (Hs : with_world (world_of (w, false)) (w, false) = (w, false))
    by reflexivity.
  rewrite searchFiles_run.
  unfold Printing.searchFiles, with_local, Printing.searchFiles_body.
  unfold bind at 1 2. rewrite (@invalid_directory_run _ _ (w, false) Hs path).
  simpl world_of. simpl fst at 2.
  destruct (fst (Os.stat path (root w))) as [[[| |a es]|]|e] eqn:E;
    cbv beta iota delta [negb Os.is_dir]; unfold Contract.on_world;
    try settle_agreement.
  run_with (@recursive_directory_iterator_opened _ _ (w, false) Hs path
              false _ _ E).
  unfold Contract.denied_below in Hnot. apply negb_false_iff in Hnot.
  rewrite (@descend_without_refusal _ path Hnot). cbv zeta.
  destruct (Os.descend true path (Os.Directory a es)) as [entries err].
  destruct (for_each_print_matches pattern entries w false)
    as [w' [found' [Hrun [Hr Hc]]]].
  pose proof (@range_for_run _ _ entries err _ _ _ Hrun) as Hfor.
  destruct err as [ec|]; cbn [fst snd].
  - rewrite (bind_throw_run _ _ _ Hfor).
    apply agree_failure; [now rewrite Hr | reflexivity | reflexivity].
  - rewrite (bind_ret_run _ _ _ Hfor). unfold bind, gets. cbn [snd fst].
    destruct found'; cbv beta iota delta [negb];
      (split; simpl; [now rewrite Hr|]);
      unfold Contract.reports_success; simpl; rewrite Hc, Nat.eqb_refl;
      now destruct (v ++ Contract.matching pattern entries)%list.
Qed.

(** C8, refuted.  On the empty directory [/e] of the example tree,
    [deleteFile] of the status-code facade answers InvalidRequest (400) and
    keeps the directory, while [deleteFile] of the printing facade removes
    it and reports success.  On the regular file [/home/notes.txt],
    [deleteDirectory] differs alike. *)
Lemma facades_differ_on_what_they_delete :
  (fst (Facade.deleteFile "/e" (Examples.world_with ""))
   = Ret Contract.InvalidRequest /\
   root (snd (Facade.deleteFile "/e" (Examples.world_with "")))
   = Examples.tree /\
   fst (Printing.deleteFile "/e" (Examples.world_with "")) = Ret tt /\
   cerr (snd (Printing.deleteFile "/e" (Examples.world_with ""))) = [] /\
   Os.status ["e"] (root (snd (Printing.deleteFile "/e" (Examples.world_with ""))))
   = Ret None /\
   ~ Contract.agree (Examples.world_with "")
       (Facade.deleteFile "/e" (Examples.world_with ""))
       (Printing.deleteFile "/e" (Examples.world_with ""))) /\
  ~ Contract.agree (Examples.world_with "")
      (Facade.deleteDirectory "/home/notes.txt" (Examples.world_with ""))
      (Printing.deleteDirectory "/home/notes.txt" (Examples.world_with "")).
Proof.
  repeat split; try reflexivity;
    intros [Hroot Hverdict]; vm_compute in Hverdict; discriminate.
Qed.

(** C8, amended.  Counting an exception that leaves the printing facade as
    a failure, the two facades leave the same tree and agree on success or
    failure: for [listDirectoryContents], [createFile] and
    [createDirectory] always; for [rename] when the existence check finds
    the old path; for [deleteFile] when the path is a regular file; for
    [deleteDirectory] when the path is a directory; for [searchFiles]
    unless the walk meets a directory that refuses with EACCES. *)
Theorem facades_agree_where_their_checks_do (w : world) :
  (forall path v,
      Contract.agree w
        (Contract.on_world (Facade.listDirectoryContents path (w, v)))
        (Printing.listDirectoryContents path w)) /\
  (forall path,
      Contract.agree w (Facade.createFile path w) (Printing.createFile path w)) /\
  (forall path,
      Contract.agree w (Facade.createDirectory path w)
                     (Printing.createDirectory path w)) /\
  (forall oldPath newPath,
      fs.exists_ oldPath w = (Ret true, w) ->
      Contract.agree w (Facade.rename oldPath newPath w)
                     (Printing.rename oldPath newPath w)) /\
  (forall path,
      fs.is_regular_file path w = (Ret true, w) ->
      Contract.agree w (Facade.deleteFile path w) (Printing.deleteFile path w)) /\
  (forall path,
      fs.is_directory path w = (Ret true, w) ->
      Contract.agree w (Facade.deleteDirectory path w)
                     (Printing.deleteDirectory path w)) /\
  (forall path pattern v,
      Contract.denied_below (fst (Os.stat path (root w))) = false ->
      Contract.agree w
        (Contract.on_world (Facade.searchFiles path pattern (w, v)))
        (Printing.searchFiles path pattern w)).
Proof.
  repeat apply conj;
    auto using agree_listDirectoryContents, agree_createFile,
      agree_createDirectory, agree_rename, agree_deleteFile,
      agree_deleteDirectory, agree_searchFiles.
Qed.

Lemma facades_agree_where_their_checks_do_witness :
  Contract.agree (Examples.world_with "")
    (Facade.rename "/tmp/t/a.txt" "/e/a.txt" (Examples.world_with ""))
    (Printing.rename "/tmp/t/a.txt" "/e/a.txt" (Examples.world_with "")) /\
  Contract.agree (Examples.world_with "")
    (Facade.deleteFile "/tmp/t/a.txt" (Examples.world_with ""))
    (Printing.deleteFile "/tmp/t/a.txt" (Examples.world_with "")) /\
  Contract.agree (Examples.world_with "")
    (Facade.deleteDirectory "/tmp/t/sub" (Examples.world_with ""))
    (Printing.deleteDirectory "/tmp/t/sub" (Examples.world_with "")) /\
  Contract.agree (Examples.world_with "")
    (Contract.on_world
       (Facade.searchFiles "/home/docs" ".txt" (Examples.world_with "", [])))
    (Printing.searchFiles "/home/docs" ".txt" (Examples.world_with "")).
Proof.
  destruct (facades_agree_where_their_checks_do (Examples.world_with ""))
    as [_ [_ [_ [Hrename [Hfile [Hdir Hsearch]]]]]].
  split; [|split; [|split]].
  - apply Hrename. reflexivity.
  - apply Hfile. reflexivity.
  - apply Hdir. reflexivity.
  - apply Hsearch. reflexivity.
Defined.

(** The search of [/home] meets [private], which refuses: the status-code
    facade passes over it and succeeds, the printing facade ends by the
    exception. *)
Example facades_differ_on_refusing_directory :
  fst (Facade.searchFiles "/home" ".txt" (Examples.world_with "", []))
  = Ret Contract.Success /\
  fst (Printing.searchFiles "/home" ".txt" (Examples.world_with ""))
  = Throw (filesystem_error EACCES).
Proof. split; reflexivity. Qed.

(** * Further properties *)

(** ** What the system calls can do to the tree *)

Lemma remove_outcome P n :
  match Os.remove P n with
  | (Ret true, _) => True
  | (Ret false, n') => n' = n
  | (Throw e, n') => n' = n /\ is_filesystem_error e = true
  end.
Proof.
  pose proof (@stat_throws_filesystem_error P n) as Hfs.
  unfold Os.remove, bind, gets. rewrite stat_run.
  destruct (fst (Os.stat P n)) as [[[| |a [|x es]]|]|e]; auto;
    destruct (Cxx.components P); simpl; auto;
    destruct (Os.writable _ n); simpl; auto.
Qed.

Lemma create_directory_outcome P n :
  match Os.create_directory P n with
  | (Ret true, _) => True
  | (Ret false, n') => n' = n
  | (Throw e, n') => n' = n /\ is_filesystem_error e = true
  end.
Proof.
  pose proof (@stat_throws_filesystem_error P n) as Hfs.
  unfold Os.create_directory, bind.
  destruct (String.eqb P ""); [simpl; auto|].
  rewrite stat_run.
  destruct (fst (Os.stat P n)) as [[[| |a es]|]|e]; simpl; auto.
  destruct (Os.status (Os.parent_of (Cxx.components P)) n)
    as [[[| |a es]|]|e] eqn:E; simpl; auto.
  - destruct (Os.can_write a); simpl; auto.
  - split; [reflexivity|]. eapply status_throws_filesystem_error; eauto.
Qed.

Lemma ofstream_outcome P n :
  match Os.ofstream P n with
  | (Ret true, _) => True
  | (Ret false, n') => n' = n
  | (Throw _, _) => False
  end.
Proof.
  unfold Os.ofstream.
  destruct (Cxx.components P) as [|c cs]; [reflexivity|].
  destruct (Os.status (Os.parent_of (c :: cs)) n) as [[[| |[] es]|]|e];
    try reflexivity;
    destruct (Os.assoc (Os.name_of (c :: cs)) es) as [[| |a es']|]; simpl; auto.
Qed.

Lemma remove_all_outcome P n :
  match Os.remove_all P n with
  | (Ret 0, n') => n' = n
  | (Ret (S _), _) => True
  | (Throw e, _) => is_filesystem_error e = true
  end.
Proof.
  pose proof (@stat_throws_filesystem_error P n) as Hfs.
  unfold Os.remove_all, bind. rewrite stat_run.
  destruct (fst (Os.stat P n)) as [[m|]|e]; simpl; auto.
  destruct (Os.purge m) as [[m' k] [ec|]];
    destruct (Cxx.components P); simpl; auto;
    destruct (Os.writable _ n); simpl; auto;
    now rewrite Nat.add_1_r.
Qed.

Lemma rename_outcome old_p new_p n :
  match Os.rename old_p new_p n with
  | (Ret _, _) => True
  | (Throw e, n') => n' = n /\ is_filesystem_error e = true
  end.
Proof.
  pose proof (@stat_throws_filesystem_error old_p n) as Hfs.
  unfold Os.rename, bind, gets.
  destruct (String.eqb new_p ""); [cbn; auto|].
  rewrite stat_run.
  destruct (fst (Os.stat old_p n)) as [[m|]|e]; [|cbn; auto..].
  destruct (Cxx.components old_p) as [|co0 co]; [cbn; auto|].
  destruct (Cxx.components new_p) as [|cn0 cn]; [cbn; auto|].
  cbv beta iota.
  destruct (Os.same_names (co0 :: co) (cn0 :: cn)); [exact I|].
  cbv beta iota.
  destruct (Os.status (Os.parent_of (cn0 :: cn)) n)
    as [[[| |a es]|]|e] eqn:Ep;
    try (cbn; split; [reflexivity|]; try reflexivity;
         eapply status_throws_filesystem_error; eassumption).
  destruct a; cbv beta iota; try (cbn; auto; fail);
    (match goal with
     | |- context [if negb ?b then _ else _] => destruct b
     end; cbv beta iota delta [negb]; [|cbn; auto]);
    (destruct (Os.is_dir m && Os.is_prefix (co0 :: co) (cn0 :: cn));
     [cbn; auto|]; cbv beta iota);
    (destruct (Os.status (cn0 :: cn) n) as [[[| |a' [|x es']]|]|e] eqn:Et;
     destruct m as [| |am esm]; cbn; auto);
    (split; [reflexivity | eapply status_throws_filesystem_error; eassumption]).
Qed.

(** ** The facade: statuses and the tree (X1, X2, X3) *)

Ltac pick_status :=
  eexists; split; [reflexivity | simpl; tauto].

Lemma facade_codes (w : world) :
  (forall path v,
      Behaviour.returns_one_of (Facade.listDirectoryContents path (w, v))
        [200; 404; 400; 500]%Z) /\
  (forall path,
      Behaviour.returns_one_of (Facade.createFile path w) [200; 500]%Z) /\
  (forall path,
      Behaviour.returns_one_of (Facade.deleteFile path w)
        [200; 404; 400; 500]%Z) /\
  (forall path,
      Behaviour.returns_one_of (Facade.createDirectory path w)
        [200; 400; 500]%Z) /\
  (forall path,
      Behaviour.returns_one_of (Facade.deleteDirectory path w)
        [200; 404; 400; 500]%Z) /\
  (forall oldPath newPath,
      Behaviour.returns_one_of (Facade.rename oldPath newPath w)
        [200; 404; 500]%Z) /\
  (forall path pattern v,
      Behaviour.returns_one_of (Facade.searchFiles path pattern (w, v))
        [200; 204; 404; 400; 500]%Z).
Proof.
  unfold Behaviour.returns_one_of. repeat apply conj.
  - intros path v. rewrite listDirectoryContents_run.
    destruct (fst (Os.stat path (root w))) as [[[| |[] es]|]|e];
      pick_status.
  - intros path. rewrite createFile_run.
    destruct (Os.ofstream path (root w)) as [[[|]|e] n']; pick_status.
  - intros path. rewrite deleteFile_run.
    pose proof (remove_outcome path (root w)) as Hrm.
    destruct (fst (Os.stat path (root w))) as [[[| |a es]|]|e];
      try pick_status.
    destruct (Os.remove path (root w)) as [[b|e] n']; [pick_status|].
    destruct Hrm as [_ ->]. pick_status.
  - intros path. rewrite createDirectory_run.
    pose proof (create_directory_outcome path (root w)) as Hmk.
    destruct (fst (Os.stat path (root w))) as [[m|]|e]; try pick_status.
    destruct (Os.create_directory path (root w)) as [[b|e] n'];
      [pick_status|].
    destruct Hmk as [_ ->]. pick_status.
  - intros path. rewrite deleteDirectory_run.
    pose proof (remove_all_outcome path (root w)) as Hrm.
    destruct (fst (Os.stat path (root w))) as [[[| |a es]|]|e];
      try pick_status.
    destruct (Os.remove_all path (root w)) as [[k|e] n']; [pick_status|].
    rewrite Hrm. pick_status.
  - intros oldPath newPath. rewrite rename_run.
    pose proof (rename_outcome oldPath newPath (root w)) as Hmv.
    destruct (fst (Os.stat oldPath (root w))) as [[m|]|e]; try pick_status.
    destruct (Os.rename oldPath newPath (root w)) as [[u|e] n'];
      [pick_status|].
    destruct Hmv as [_ ->]. pick_status.
  - intros path pattern v. rewrite searchFiles_run.
    destruct (fst (Os.stat path (root w))) as [[[| |a es]|]|e];
      try pick_status.
    cbv zeta.
    destruct (Os.descend true path (Os.Directory a es)) as [entries [ec|]];
      cbn [fst snd]; [pick_status|].
    destruct (v ++ Contract.matching pattern entries)%list; pick_status.
Qed.

(** X1. No exception leaves the status-code facade, and each operation
    returns one of the codes its header comment lists: 204 comes from
    [searchFiles] alone, [createFile] knows 200 and 500 only, [rename] never
    answers 400 and [createDirectory] never 404. *)
Theorem facade_returns_its_documented_codes (w : world) :
  (forall path v,
      Behaviour.returns_one_of (Facade.listDirectoryContents path (w, v))
        [200; 404; 400; 500]%Z) /\
  (forall path,
      Behaviour.returns_one_of (Facade.createFile path w) [200; 500]%Z) /\
  (forall path,
      Behaviour.returns_one_of (Facade.deleteFile path w)
        [200; 404; 400; 500]%Z) /\
  (forall path,
      Behaviour.returns_one_of (Facade.createDirectory path w)
        [200; 400; 500]%Z) /\
  (forall path,
      Behaviour.returns_one_of (Facade.deleteDirectory path w)
        [200; 404; 400; 500]%Z) /\
  (forall oldPath newPath,
      Behaviour.returns_one_of (Facade.rename oldPath newPath w)
        [200; 404; 500]%Z) /\
  (forall path pattern v,
      Behaviour.returns_one_of (Facade.searchFiles path pattern (w, v))
        [200; 204; 404; 400; 500]%Z).
Proof. exact (facade_codes w). Qed.

(** X2. [listDirectoryContents] and [searchFiles] never change the
    directory tree, whatever they return. *)
Theorem reading_leaves_the_tree (w : world) (path pattern : string)
        (v : list string) :
  root (fst (snd (Facade.listDirectoryContents path (w, v)))) = root w /\
  root (fst (snd (Facade.searchFiles path pattern (w, v)))) = root w.
Proof.
  rewrite listDirectoryContents_run, searchFiles_run. split.
  - now destruct (fst (Os.stat path (root w))) as [[[| |[] es]|]|e].
  - destruct (fst (Os.stat path (root w))) as [[[| |a es]|]|e];
      try reflexivity.
    cbv zeta.
    now destruct (Os.descend true path (Os.Directory a es)) as [entries [ec|]].
Qed.

(** X3. An operation that changes the tree has returned 200:
    [createFile], [deleteFile], [createDirectory] and [rename] leave the
    tree as it was whenever they return another code, and so does
    [deleteDirectory] when it returns 404 or 400. *)
Theorem refusal_leaves_the_tree (w : world) :
  (forall path,
      fst (Facade.createFile path w) <> Ret Contract.Success ->
      root (snd (Facade.createFile path w)) = root w) /\
  (forall path,
      fst (Facade.deleteFile path w) <> Ret Contract.Success ->
      root (snd (Facade.deleteFile path w)) = root w) /\
  (forall path,
      fst (Facade.createDirectory path w) <> Ret Contract.Success ->
      root (snd (Facade.createDirectory path w)) = root w) /\
  (forall oldPath newPath,
      fst (Facade.rename oldPath newPath w) <> Ret Contract.Success ->
      root (snd (Facade.rename oldPath newPath w)) = root w) /\
  (forall path,
      fst (Facade.deleteDirectory path w) = Ret Contract.NotFound \/
      fst (Facade.deleteDirectory path w) = Ret Contract.InvalidRequest ->
      root (snd (Facade.deleteDirectory path w)) = root w).
Proof.
  unfold Contract.Success, Contract.NotFound, Contract.InvalidRequest.
  repeat apply conj.
  - intros path. rewrite createFile_run.
    pose proof (ofstream_outcome path (root w)) as Hopen.
    destruct (Os.ofstream path (root w)) as [[[|]|e] n']; simpl;
      [congruence | now subst | contradiction].
  - intros path. rewrite deleteFile_run.
    pose proof (remove_outcome path (root w)) as Hrm.
    destruct (fst (Os.stat path (root w))) as [[[| |a es]|]|e];
      try reflexivity.
    destruct (Os.remove path (root w)) as [[b|e] n']; simpl; [congruence|].
    destruct Hrm as [-> ->]. reflexivity.
  - intros path. rewrite createDirectory_run.
    pose proof (create_directory_outcome path (root w)) as Hmk.
    destruct (fst (Os.stat path (root w))) as [[m|]|e]; try reflexivity.
    destruct (Os.create_directory path (root w)) as [[b|e] n']; simpl;
      [congruence|].
    destruct Hmk as [-> ->]. reflexivity.
  - intros oldPath newPath. rewrite rename_run.
    pose proof (rename_outcome oldPath newPath (root w)) as Hmv.
    destruct (fst (Os.stat oldPath (root w))) as [[m|]|e]; try reflexivity.
    destruct (Os.rename oldPath newPath (root w)) as [[u|e] n']; simpl;
      [congruence|].
    destruct Hmv as [-> ->]. reflexivity.
  - intros path. rewrite deleteDirectory_run.
    pose proof (remove_all_outcome path (root w)) as Hrm.
    destruct (fst (Os.stat path (root w))) as [[[| |a es]|]|e];
      try reflexivity.
    destruct (Os.remove_all path (root w)) as [[k|e] n']; simpl.
    + intros [?|?]; discriminate.
    + rewrite Hrm. simpl. intros [?|?]; discriminate.
Qed.

Lemma refusal_leaves_the_tree_witness :
  root (snd (Facade.deleteFile "/e" (Examples.world_with ""))) = Examples.tree /\
  root (snd (Facade.createFile "/nowhere/f" (Examples.world_with "")))
  = Examples.tree /\
  root (snd (Facade.deleteDirectory "/home/pipe" (Examples.world_with "")))
  = Examples.tree.
Proof.
  destruct (refusal_leaves_the_tree (Examples.world_with ""))
    as [Hcreate [Hdelete [_ [_ Hrmdir]]]].
  split; [|split].
  - apply (Hdelete "/e"). discriminate.
  - apply (Hcreate "/nowhere/f"). discriminate.
  - apply (Hrmdir "/home/pipe"). right. reflexivity.
Defined.

(** ** The last name of a path *)

Lemma status_snoc pcs name : forall n,
  Os.status (pcs ++ [name]) n =
  match Os.status pcs n with
  | Ret (Some (Os.Directory Os.PermissionDenied _)) =>
      Throw (filesystem_error EACCES)
  | Ret (Some (Os.Directory Os.IOFailure _)) => Throw (filesystem_error EIO)
  | Ret (Some (Os.Directory _ es)) => Ret (Os.assoc name es)
  | Ret _ => Ret None
  | Throw e => Throw e
  end.
Proof.
  induction pcs as [|c pcs IH]; intros n; simpl.
  - destruct n as [| |[] es]; try reflexivity;
      now destruct (Os.assoc name es).
  - destruct n as [| |[] es]; try reflexivity;
      (destruct (Os.assoc c es) as [m|]; [apply IH | reflexivity]).
Qed.

Lemma status_snoc_found pcs name n m :
  Os.status (pcs ++ [name]) n = Ret (Some m) ->
  exists a es, Os.status pcs n = Ret (Some (Os.Directory a es)) /\
               Os.assoc name es = Some m.
Proof.
  rewrite status_snoc.
  destruct (Os.status pcs n) as [[[| |[] es]|]|e]; try discriminate;
    intros E; injection E as E; eexists _, es; split; eauto.
Qed.

Lemma assoc_drop_entry name es : Os.assoc name (Os.drop_entry name es) = None.
Proof.
  destruct (Os.assoc name (Os.drop_entry name es)) as [m|] eqn:A;
    [|reflexivity].
  apply assoc_In in A. now apply drop_entry_not_In in A.
Qed.

Lemma assoc_put_entry name m es :
  Os.assoc name (Os.put_entry name m es) = Some m.
Proof.
  unfold Os.put_entry. destruct (Os.assoc name es) as [m0|] eqn:A.
  - now rewrite assoc_update_entry, A.
  - induction es as [|[k m1] es IH]; simpl in *.
    + now rewrite String.eqb_refl.
    + destruct (String.eqb k name); [discriminate | auto].
Qed.

(** What was at [pcs/name] is gone once the name is dropped. *)
Lemma dropped_is_absent pcs name n m :
  Os.status (pcs ++ [name]) n = Ret (Some m) ->
  Os.status (pcs ++ [name]) (Os.alter_dir pcs (Os.drop_entry name) n)
  = Ret None.
Proof.
  intros St. pose proof St as St0.
  apply status_snoc_found in St as [a [es [Sp _]]].
  rewrite status_snoc in St0. rewrite Sp in St0.
  rewrite status_snoc, (status_alter_dir _ (Os.drop_entry name) _ Sp).
  destruct a; try discriminate St0; now rewrite assoc_drop_entry.
Qed.

Lemma names_of_nonroot (p : string) :
  Cxx.components p <> [] ->
  Cxx.components p
  = (Os.parent_of (Cxx.components p) ++ [Os.name_of (Cxx.components p)])%list.
Proof. intros H. now apply app_removelast_last. Qed.

Lemma stat_found_nonempty p n o :
  fst (Os.stat p n) = Ret (Some o) ->
  p <> "" /\ Os.status (Cxx.components p) n = Ret (Some o).
Proof.
  unfold Os.stat. destruct (String.eqb_spec p ""); simpl; [discriminate|].
  auto.
Qed.

(** ** Deleting a file (X4) *)

(** What [fs::remove] has removed is no longer there. *)
Lemma remove_gone (P : string) (n n' : Os.node) :
  Os.remove P n = (Ret true, n') -> fst (Os.stat P n') = Ret None.
Proof.
  unfold Os.remove, bind, gets. rewrite stat_run.
  destruct (fst (Os.stat P n)) as [[m|]|e] eqn:St; try discriminate.
  destruct (stat_found_nonempty _ _ St) as [HP Hm].
  destruct (Cxx.components P) as [|c cs] eqn:Hc; [discriminate|].
  assert (Hcs : Cxx.components P <> []) by (rewrite Hc; discriminate).
  apply names_of_nonroot in Hcs. rewrite Hc in Hcs.
  cbv beta iota.
  destruct (Os.writable (Os.parent_of (c :: cs)) n); [|discriminate].
  cbv beta iota delta [negb].
  assert (Hgone :
    fst (Os.stat P (Os.alter_dir (Os.parent_of (c :: cs))
                      (Os.drop_entry (Os.name_of (c :: cs))) n)) = Ret None).
  { rewrite (stat_nonempty _ HP), Hc. cbn [fst]. rewrite Hcs in Hm |- * at 1.
    eapply dropped_is_absent; eauto. }
  destruct m as [| |a [|x es]]; try discriminate;
    intros E; injection E as <-; exact Hgone.
Qed.

(** X4. When [deleteFile] has returned 200 the path was a regular file;
    afterwards the path does not exist and a second [deleteFile] returns
    404. *)
Theorem deleteFile_removes_a_regular_file (w w1 : world) (P : string) :
  Facade.deleteFile P w = (Ret Contract.Success, w1) ->
  fs.is_regular_file P w = (Ret true, w) /\
  fs.exists_ P w1 = (Ret false, w1) /\
  fst (Facade.deleteFile P w1) = Ret Contract.NotFound.
Proof.
  intros Hdelete. rewrite deleteFile_run in Hdelete.
  pose proof (remove_cases P (root w)) as Hrm.
  destruct (fst (Os.stat P (root w))) as [[[| |a es]|]|e] eqn:St;
    try discriminate Hdelete.
  destruct (Os.remove P (root w)) as [[[|]|e] n'] eqn:Rm.
  - injection Hdelete as <-.
    pose proof (remove_gone _ _ Rm) as Hgone.
    split; [|split].
    + apply (@is_regular_file_found _ _ w (with_world_same_world w) P _ St).
    + apply (@exists_found _ _ (set_root n' w) (with_world_same_world _)
               P None Hgone).
    + rewrite deleteFile_run. simpl root. now rewrite Hgone.
  - now contradiction Hrm.
  - destruct (is_filesystem_error e); discriminate.
Qed.

Lemma deleteFile_removes_a_regular_file_witness :
  let w := Examples.world_with "" in
  let w1 := snd (Facade.deleteFile "/tmp/t/a.txt" w) in
  fs.is_regular_file "/tmp/t/a.txt" w = (Ret true, w) /\
  fs.exists_ "/tmp/t/a.txt" w1 = (Ret false, w1) /\
  fst (Facade.deleteFile "/tmp/t/a.txt" w1) = Ret 404%Z.
Proof.
  intros w w1.
  apply (@deleteFile_removes_a_regular_file w w1 "/tmp/t/a.txt").
  reflexivity.
Defined.

(** ** Creating (X5, X6, X7) *)

Section Opened.
Variables (P : string) (pcs : list string) (name : string).
Hypothesis names_of_P : Cxx.components P = (pcs ++ [name])%list.


End Opened.




Section CreateAt.
Variables (P : string) (pcs : list string) (name : string).
Hypothesis names_of_P : Cxx.components P = (pcs ++ [name])%list.
Hypothesis P_nonempty : P <> "".

Lemma create_directory_at (n : Os.node) :
  fst (Os.stat P n) = Ret None ->
  Os.create_directory P n =
  match Os.status pcs n with
  | Ret (Some (Os.Directory a _)) =>
      if Os.can_write a then
        (Ret true,
         Os.alter_dir pcs (Os.put_entry name (Os.Directory Os.Readable [])) n)
      else (Throw (filesystem_error EACCES), n)
  | Ret (Some _) => (Throw (filesystem_error ENOTDIR), n)
  | Ret None => (Throw (filesystem_error ENOENT), n)
  | Throw e => (Throw e, n)
  end.
Proof.
  intros E. unfold Os.create_directory, bind, Os.parent_of, Os.name_of.
  destruct (String.eqb_spec P ""); [contradiction|].
  rewrite stat_run, E, names_of_P, removelast_last, last_last.
  destruct (Os.status pcs n) as [[[| |a es]|]|e]; try reflexivity.
  now destruct (Os.can_write a).
Qed.

End CreateAt.

(** X6. After [createDirectory] has returned 200 the path is a directory,
    and [createDirectory] on it again returns 400 and leaves the tree. *)
Theorem createDirectory_then_is_directory (w w1 : world) (P : string) :
  Facade.createDirectory P w = (Ret Contract.Success, w1) ->
  fs.is_directory P w1 = (Ret true, w1) /\
  fst (Facade.createDirectory P w1) = Ret Contract.InvalidRequest /\
  root (snd (Facade.createDirectory P w1)) = root w1.
Proof.
  intros Hcreate. rewrite createDirectory_run in Hcreate.
  destruct (fst (Os.stat P (root w))) as [[m|]|e] eqn:E; try discriminate.
  assert (HP : P <> "").
  { intros ->. discriminate Hcreate. }
  assert (Hne : Cxx.components P <> []).
  { intros Hnil. rewrite (stat_nonempty _ HP), Hnil in E. discriminate. }
  pose proof (names_of_nonroot _ Hne) as Hcs.
  set (pcs := Os.parent_of (Cxx.components P)) in *.
  set (name := Os.name_of (Cxx.components P)) in *.
  rewrite (@create_directory_at _ _ _ Hcs HP _ E) in Hcreate.
  pose proof E as Eabs. rewrite (stat_nonempty _ HP), Hcs in Eabs.
  simpl in Eabs.
  destruct (Os.status pcs (root w)) as [[[| |a es]|]|e] eqn:Sp;
    try discriminate Hcreate;
    try (simpl in Hcreate; destruct (is_filesystem_error e);
         discriminate Hcreate).
  destruct (Os.can_write a) eqn:Hw; [|discriminate Hcreate].
  injection Hcreate as <-.
  assert (St : fst (Os.stat P (root (set_root
                 (Os.alter_dir pcs
                    (Os.put_entry name (Os.Directory Os.Readable []))
                    (root w)) w)))
               = Ret (Some (Os.Directory Os.Readable []))).
  { rewrite (stat_nonempty _ HP), Hcs. simpl.
    rewrite status_snoc, (status_alter_dir _ _ _ Sp).
    destruct a; try discriminate Hw; now rewrite assoc_put_entry. }
  repeat split.
  - now rewrite (@is_directory_found _ _ _ (with_world_same_world _) P _ St).
  - rewrite createDirectory_run. now rewrite St.
  - rewrite createDirectory_run. now rewrite St.
Qed.

Lemma createDirectory_then_is_directory_witness :
  let w1 := snd (Facade.createDirectory "/e/d" (Examples.world_with "")) in
  fs.is_directory "/e/d" w1 = (Ret true, w1) /\
  fst (Facade.createDirectory "/e/d" w1) = Ret 400%Z /\
  root (snd (Facade.createDirectory "/e/d" w1)) = root w1.
Proof.
  apply (@createDirectory_then_is_directory (Examples.world_with "")).
  reflexivity.
Defined.



(** ** Deleting a directory (X8) *)

(** What [fs::remove_all] has removed is no longer there. *)
Lemma remove_all_gone (P : string) (n n' : Os.node) (m : Os.node) (k : nat) :
  fst (Os.stat P n) = Ret (Some m) ->
  Os.remove_all P n = (Ret k, n') ->
  Os.status (Cxx.components P) n' = Ret None.
Proof.
  intros St. destruct (stat_found_nonempty _ _ St) as [HP Hm].
  unfold Os.remove_all, bind, gets. rewrite stat_run, St.
  destruct (Os.purge m) as [[m' j] [ec|]];
    destruct (Cxx.components P) as [|c cs] eqn:Hc; try discriminate.
  assert (Hcs : Cxx.components P <> []) by (rewrite Hc; discriminate).
  apply names_of_nonroot in Hcs. rewrite Hc in Hcs.
  cbv beta iota.
  destruct (Os.writable (Os.parent_of (c :: cs)) n); [|discriminate].
  cbv beta iota delta [negb]. intros E. injection E as _ <-.
  rewrite Hcs in Hm |- * at 1. eapply dropped_is_absent; eauto.
Qed.

(** X8. When [deleteDirectory] has returned 200 the path was a directory;
    afterwards neither the path nor any path below it exists. *)
Theorem deleteDirectory_removes_the_subtree (w w1 : world) (D : string) :
  Facade.deleteDirectory D w = (Ret Contract.Success, w1) ->
  fs.is_directory D w = (Ret true, w) /\
  fs.exists_ D w1 = (Ret false, w1) /\
  forall name, Contract.is_name name = true ->
               fs.exists_ (Cxx.path_append D name) w1 = (Ret false, w1).
Proof.
  intros Hdelete. rewrite deleteDirectory_run in Hdelete.
  destruct (fst (Os.stat D (root w))) as [[[| |a es]|]|e] eqn:St;
    try discriminate Hdelete.
  destruct (stat_found_nonempty _ _ St) as [HD _].
  destruct (Os.remove_all D (root w)) as [[k|e] n1] eqn:Rm;
    [|destruct (is_filesystem_error e); discriminate].
  injection Hdelete as <-.
  pose proof (remove_all_gone _ _ St Rm) as Hgone.
  split; [|split].
  - apply (@is_directory_found _ _ w (with_world_same_world w) D _ St).
  - apply (@exists_found _ _ (set_root n1 w) (with_world_same_world _) D None).
    simpl. now rewrite (stat_nonempty _ HD).
  - intros leaf Hleaf.
    apply (@exists_found _ _ (set_root n1 w) (with_world_same_world _) _ None).
    simpl. rewrite (stat_nonempty _ (@path_append_nonempty D leaf Hleaf)). simpl.
    now rewrite (@components_path_append D leaf HD Hleaf), status_snoc, Hgone.
Qed.

Lemma deleteDirectory_removes_the_subtree_witness :
  let w := Examples.world_with "" in
  let w1 := snd (Facade.deleteDirectory "/tmp/t/sub" w) in
  fs.is_directory "/tmp/t/sub" w = (Ret true, w) /\
  fs.exists_ "/tmp/t/sub" w1 = (Ret false, w1) /\
  forall name, Contract.is_name name = true ->
               fs.exists_ (Cxx.path_append "/tmp/t/sub" name) w1
               = (Ret false, w1).
Proof.
  intros w w1.
  apply (@deleteDirectory_removes_the_subtree w w1 "/tmp/t/sub").
  reflexivity.
Defined.

(** A directory that holds one that cannot be opened is not removed:
    [deleteDirectory] returns 500 and the directory is still there. *)
Example deleteDirectory_stops_at_refusing_directory :
  let run := Facade.deleteDirectory "/home" (Examples.world_with "") in
  fst run = Ret Contract.InternalError /\
  fst (fs.exists_ "/home" (snd run)) = Ret true /\
  fst (fs.exists_ "/home/notes.txt" (snd run)) = Ret false /\
  fst (fs.exists_ "/home/private" (snd run)) = Ret true.
Proof. repeat split. Qed.

(** Nor is a directory that can be listed but not changed.  In the guarded
    tree every change in [/ro] returns 500 and leaves the tree: creating a
    file or a directory, deleting [f.txt], moving an entry in or out,
    deleting [/ro] itself.  An existing file of [/ro] is opened all the
    same.  [deleteDirectory] of [/ro/d] empties [d] before it fails to
    remove it. *)
Example read_only_directory_is_left :
  let w := Examples.guarded_world in
  (fst (Facade.createFile "/ro/new.txt" w) = Ret Contract.InternalError /\
   fst (Facade.createFile "/ro/f.txt" w) = Ret Contract.Success /\
   fst (Facade.createDirectory "/ro/sub" w) = Ret Contract.InternalError /\
   fst (Facade.deleteFile "/ro/f.txt" w) = Ret Contract.InternalError /\
   root (snd (Facade.deleteFile "/ro/f.txt" w)) = Examples.guarded /\
   fst (Facade.rename "/ro/f.txt" "/box/f.txt" w)
   = Ret Contract.InternalError /\
   fst (Facade.rename "/box/in" "/ro/in" w) = Ret Contract.InternalError /\
   fst (Contract.listing "/ro" w)
   = Ret (Contract.Success, ["/ro/f.txt"; "/ro/d"])) /\
  (fst (Facade.deleteDirectory "/ro" w) = Ret Contract.InternalError /\
   root (snd (Facade.deleteDirectory "/ro" w)) = Examples.guarded) /\
  (fst (Facade.deleteDirectory "/ro/d" w) = Ret Contract.InternalError /\
   fst (fs.exists_ "/ro/d" (snd (Facade.deleteDirectory "/ro/d" w)))
   = Ret true /\
   fst (fs.exists_ "/ro/d/g.txt" (snd (Facade.deleteDirectory "/ro/d" w)))
   = Ret false).
Proof. repeat split. Qed.

(** A directory that can be changed but not listed takes new entries and
    gives up those it has, but [list] and [deleteDirectory] fail on it
    and [search] passes over it. *)
Example write_only_directory_is_changed :
  let w := Examples.guarded_world in
  let w1 := snd (Facade.createFile "/wo/new.txt" w) in
  fst (Facade.createFile "/wo/new.txt" w) = Ret Contract.Success /\
  fst (Facade.createDirectory "/wo/sub" w) = Ret Contract.Success /\
  fst (Facade.rename "/wo/new.txt" "/wo/r.txt" w1) = Ret Contract.Success /\
  fst (Facade.deleteFile "/wo/new.txt" w1) = Ret Contract.Success /\
  fst (Contract.listing "/wo" w1) = Ret (Contract.InternalError, []) /\
  fst (Contract.search "/wo" "" w1) = Ret (Contract.NoMatches, []) /\
  fst (Facade.deleteDirectory "/wo" w1) = Ret Contract.InternalError.
Proof. repeat split. Qed.

(** A directory moves within its directory whatever its own access, and
    to another directory only when it can itself be changed; below a
    directory that refuses every access nothing is reached. *)
Example guarded_directories_move :
  let w := Examples.guarded_world in
  fst (Facade.rename "/movable" "/box/movable" w)
  = Ret Contract.InternalError /\
  fst (Facade.rename "/movable" "/movable2" w) = Ret Contract.Success /\
  fst (Facade.deleteDirectory "/movable" w) = Ret Contract.InternalError /\
  fst (Facade.rename "/none" "/none2" w) = Ret Contract.Success /\
  fst (Facade.deleteFile "/none/x/y.txt" w) = Ret Contract.InternalError /\
  fst (Facade.createFile "/none/z" w) = Ret Contract.InternalError /\
  fst (Facade.createDirectory "/none/zz" w) = Ret Contract.InternalError /\
  fst (Contract.listing "/none" w) = Ret (Contract.InternalError, []) /\
  fst (Contract.search "/none" "" w) = Ret (Contract.NoMatches, []) /\
  fst (Contract.search "/" "y" w) = Ret (Contract.NoMatches, []) /\
  fst (Facade.deleteDirectory "/none" w) = Ret Contract.InternalError.
Proof. repeat split. Qed.

(** ** Renaming (X9) *)







(** ** Listing and searching together (X10, X11) *)

(** X10. What [list D] returns, [search D ""] returns too: on a directory
    without I/O error below it, every entry of the listing is among the
    results of the search for the empty substring. *)
Theorem listed_entries_are_found (w w' : world) (D : string) (n : Os.node)
        (status : Z) (l : list string) :
  Contract.directory_at w D n ->
  Os.no_io_failure n = true ->
  Contract.listing D w = (Ret (status, l), w') ->
  exists status' results,
    Contract.search D "" w = (Ret (status', results), w) /\
    incl l results.
Proof.
  intros Hat Hok Hlist. eexists _, _.
  split; [apply (search_run "" Hat Hok)|].
  rewrite matching_empty_pattern.
  destruct Hat as [Hstat Hdir].
  unfold Contract.listing, with_local in Hlist.
  rewrite listDirectoryContents_run, Hstat in Hlist. simpl fst in Hlist.
  destruct n as [| |a es]; try discriminate Hdir.
  destruct (Os.can_open a) eqn:Ha;
    injection Hlist as _ <- _; [|intros e []].
  intros e He. simpl in He. apply in_map_iff in He as [[name m] [<- Hin]].
  apply descend_complete; [|now apply no_io_failure_walk].
  eapply Contract.under_entry; eauto.
Qed.

Lemma listed_entries_are_found_witness :
  exists status' results,
    Contract.search "/home" "" (Examples.world_with "")
    = (Ret (status', results), Examples.world_with "") /\
    incl ["/home/notes.txt"; "/home/docs"; "/home/pipe"; "/home/private"]
         results.
Proof.
  apply (@listed_entries_are_found (Examples.world_with "")
           (Examples.world_with "") "/home" Examples.home 200%Z).
  - split; reflexivity.
  - reflexivity.
  - reflexivity.
Defined.

Lemma no_separator_app (a b : string) :
  Contract.no_separator (a ++ b)
  = Contract.no_separator a && Contract.no_separator b.
Proof.
  induction a as [|c a IH]; simpl; [reflexivity|].
  now rewrite IH, andb_assoc.
Qed.

Lemma filename_from_no_separator (p cur : string) :
  Contract.no_separator cur = true ->
  Contract.no_separator (Cxx.filename_from p cur) = true.
Proof.
  revert cur. induction p as [|c p IH]; intros cur Hcur; simpl; [exact Hcur|].
  destruct (Ascii.eqb c "/") eqn:E; apply IH; [reflexivity|].
  rewrite no_separator_app, Hcur. simpl. now rewrite E.
Qed.

Lemma matching_never_across_separator (pattern : string) (entries : list string) :
  Contract.no_separator pattern = false ->
  Contract.matching pattern entries = [].
Proof.
  intros Hsep. induction entries as [|x l IH]; simpl; [reflexivity|].
  destruct (Cxx.find pattern (Cxx.filename x)) as [k|] eqn:F; [|exact IH].
  assert (Hocc : Contract.occurs_in pattern (Cxx.filename x))
    by (apply find_occurs; congruence).
  destruct Hocc as [a [b Hab]].
  pose proof (@filename_from_no_separator x "" eq_refl) as Hname.
  unfold Cxx.filename in Hab. rewrite Hab, !no_separator_app, Hsep in Hname.
  now rewrite andb_false_r in Hname.
Qed.

(** X11. The pattern is looked for in the last name of each entry only: a
    pattern that contains a separator matches nothing.  [searchFiles]
    appends nothing for it, and on an empty vector never returns 200. *)
Theorem pattern_with_separator_finds_nothing
        (w : world) (D pattern : string) (v : list string) :
  Contract.no_separator pattern = false ->
  snd (snd (Facade.searchFiles D pattern (w, v))) = v /\
  fst (Facade.searchFiles D pattern (w, [])) <> Ret Contract.Success.
Proof.
  intros Hsep. rewrite !searchFiles_run.
  destruct (fst (Os.stat D (root w))) as [[[| |a es]|]|e];
    try (split; [reflexivity | discriminate]).
  cbv zeta. rewrite !(@matching_never_across_separator pattern _ Hsep), app_nil_r.
  destruct (snd (Os.descend true D (Os.Directory a es)));
    split; try reflexivity; discriminate.
Qed.

Lemma pattern_with_separator_finds_nothing_witness :
  snd (snd (Facade.searchFiles "/tmp/t" "sub/c.txt"
              (Examples.world_with "", ["kept"]))) = ["kept"] /\
  fst (Facade.searchFiles "/tmp/t" "sub/c.txt" (Examples.world_with "", []))
  <> Ret 200%Z.
Proof.
  apply (@pattern_with_separator_finds_nothing (Examples.world_with "")
           "/tmp/t" "sub/c.txt" ["kept"]).
  reflexivity.
Defined.

(** ** The controller never throws but for [stoi] (X12) *)

Lemma returns_ret {S A} (a : A) : Behaviour.returns (@ret S A a).
Proof. intros s. now exists a, s. Qed.

Lemma returns_bind {S A B} (m : M S A) (k : A -> M S B) :
  Behaviour.returns m -> (forall a, Behaviour.returns (k a)) ->
  Behaviour.returns (bind m k).
Proof.
  intros Hm Hk s. destruct (Hm s) as [a [s' E]].
  destruct (Hk a s') as [b [s'' E']]. exists b, s''.
  now rewrite (bind_ret_run _ _ _ E).
Qed.

Lemma returns_cout_put (s : string) : Behaviour.returns (@cout_put world _ s).
Proof. intros w. now eexists _, _. Qed.

Lemma returns_system (s : string) : Behaviour.returns (@system world _ s).
Proof. intros w. now eexists _, _. Qed.

Lemma returns_getline (str : string) : Behaviour.returns (Console.getline str).
Proof.
  intros w. unfold Console.getline.
  destruct (Console.getline_from (cin w) str). now eexists _, _.
Qed.

Lemma returns_read_char : Behaviour.returns Console.read_char.
Proof. intros w. rewrite read_char_run. now eexists _, _. Qed.

Lemma returns_ignore : Behaviour.returns Console.ignore.
Proof. intros w. now eexists _, _. Qed.

Lemma returns_for_each_cout (f : string -> string) (l : list string) :
  Behaviour.returns (for_each l (fun x => @cout_put world _ (f x))).
Proof.
  intros w. destruct (for_each_cout f l w) as [w' [E _]]. now exists tt, w'.
Qed.

Lemma returns_handleStatus (statusCode : Z) :
  Behaviour.returns (UI.handleStatus statusCode).
Proof.
  unfold UI.handleStatus.
  repeat match goal with
         | |- context [match ?x with _ => _ end] => destruct x
         end; apply returns_cout_put.
Qed.

Lemma returns_status {A} (m : M world Z) (k : Z -> M world A) :
  (forall w, exists status w', m w = (Ret status, w')) ->
  (forall status, Behaviour.returns (k status)) ->
  Behaviour.returns (bind m k).
Proof. intros Hm Hk. apply returns_bind; assumption. Qed.

Lemma returns_of_codes {S} (run : result Z * S) (codes : list Z) :
  Behaviour.returns_one_of run codes -> exists status s', run = (Ret status, s').
Proof.
  intros [status [E _]]. destruct run as [r s']. simpl in E. subst r.
  now exists status, s'.
Qed.

Lemma returns_with_local {A V} (f : M (world * V) A) (v : V) :
  Behaviour.returns f -> Behaviour.returns (with_local f v).
Proof.
  intros Hf w. destruct (Hf (w, v)) as [a [[w' v'] E]].
  exists (a, v'), w'. unfold with_local. now rewrite E.
Qed.

#[local] Hint Resolve returns_ret returns_cout_put returns_system
  returns_getline returns_read_char returns_ignore returns_for_each_cout
  returns_handleStatus : facades.

Lemma returns_facade :
  (forall path, Behaviour.returns (Facade.createFile path)) /\
  (forall path, Behaviour.returns (Facade.deleteFile path)) /\
  (forall path, Behaviour.returns (Facade.createDirectory path)) /\
  (forall path, Behaviour.returns (Facade.deleteDirectory path)) /\
  (forall oldPath newPath, Behaviour.returns (Facade.rename oldPath newPath)) /\
  (forall path, Behaviour.returns (Facade.listDirectoryContents path)) /\
  (forall path pattern, Behaviour.returns (Facade.searchFiles path pattern)).
Proof.
  repeat apply conj; intros.
  - intros w. destruct (facade_codes w) as [_ [H _]].
    eapply returns_of_codes; apply H.
  - intros w. destruct (facade_codes w) as [_ [_ [H _]]].
    eapply returns_of_codes; apply H.
  - intros w. destruct (facade_codes w) as [_ [_ [_ [H _]]]].
    eapply returns_of_codes; apply H.
  - intros w. destruct (facade_codes w) as [_ [_ [_ [_ [H _]]]]].
    eapply returns_of_codes; apply H.
  - intros w. destruct (facade_codes w) as [_ [_ [_ [_ [_ [H _]]]]]].
    eapply returns_of_codes; apply H.
  - intros [w v]. destruct (facade_codes w) as [H _].
    eapply returns_of_codes; apply H.
  - intros [w v]. destruct (facade_codes w) as [_ [_ [_ [_ [_ [_ H]]]]]].
    eapply returns_of_codes; apply H.
Qed.

Ltac never_throws :=
  repeat first
    [ apply returns_bind; [|intros ?]
    | apply returns_with_local
    | apply returns_facade
    | solve [auto with facades]
    | match goal with
      | |- Behaviour.returns (let '(_, _) := ?r in _) => destruct r
      | |- Behaviour.returns (if ?b then _ else _) => destruct b
      end ].

Lemma returns_handlers :
  Behaviour.returns UI.createFile /\ Behaviour.returns UI.deleteFile /\
  Behaviour.returns UI.createDirectory /\ Behaviour.returns UI.deleteDirectory /\
  Behaviour.returns UI.listDirectoryContents /\ Behaviour.returns UI.renameItem /\
  Behaviour.returns UI.searchFiles /\
  Behaviour.returns UI.clearConsoleWithConfirmation.
Proof.
  unfold UI.createFile, UI.deleteFile, UI.createDirectory, UI.deleteDirectory,
    UI.listDirectoryContents, UI.renameItem, UI.searchFiles,
    UI.clearConsoleWithConfirmation.
  repeat apply conj; never_throws.
Qed.

Lemma parse_int_throws (str : string) (e : exn) :
  Cxx.parse_int str = Throw e -> Behaviour.from_stoi e.
Proof.
  unfold Cxx.parse_int, Behaviour.from_stoi.
  destruct (Cxx.skip_spaces str) as [|c s]; simpl.
  - intros E. injection E as <-. auto.
  - repeat match goal with
           | |- context [match ?x with _ => _ end] => destruct x
           end;
      intros E; try discriminate; injection E as <-; auto.
Qed.

(** What [dispatch] does: it returns, or passes on the exception of
    [stoi]. *)
Lemma dispatch_returns_or_stoi (command : string) (w : world) :
  (exists f w', UI.dispatch command w = (Ret f, w')) \/
  (exists e, UI.dispatch command w = (Throw e, w) /\ Behaviour.from_stoi e).
Proof.
  destruct (Cxx.parse_int command) as [k|e] eqn:E.
  - left. unfold UI.dispatch.
    assert (Hret : Behaviour.returns
                     (if String.eqb command "9"
                      then
                        cout_put (endl ++ "Are you sure you want to exit? (y/n): ") ;;
                        confirm <- Console.read_char ;;
                        Console.ignore ;;
                        (if UI.confirmed confirm
                         then cout_put (endl ++ "Goodbye!" ++ endl) ;;
                              ret UI.Break
                         else ret UI.Continue)
                      else UI.processCommand command ;; ret UI.Continue)).
    { destruct (String.eqb command "9"); [never_throws|].
      apply returns_bind; [|intros; apply returns_ret].
      unfold UI.processCommand, Cxx.stoi. intros s.
      unfold bind at 1. rewrite E.
      destruct returns_handlers as [H1 [H2 [H3 [H4 [H5 [H6 [H7 H8]]]]]]].
      repeat match goal with
             | |- context [match ?x with _ => _ end] => destruct x
             end;
        first [ apply H1 | apply H2 | apply H3 | apply H4 | apply H5
              | apply H6 | apply H7 | apply H8
              | apply returns_ret | apply returns_cout_put ]. }
    apply Hret.
  - right. exists e. split; [now apply dispatch_throws|].
    now apply parse_int_throws in E.
Qed.

Lemma turn_returns_or_stoi (command : string) (w : world) :
  (exists r w', UI.turn command w = (Ret r, w')) \/
  (exists e w', UI.turn command w = (Throw e, w') /\ Behaviour.from_stoi e).
Proof.
  unfold UI.turn, bind, cout_put, in_world, modify, Console.getline. simpl.
  destruct (Console.getline_from (cin w) command) as [i ln]. simpl.
  match goal with
  | |- context [UI.dispatch ln ?w1] =>
      destruct (dispatch_returns_or_stoi ln w1) as [[f [w' E]]|[e [E He]]];
      rewrite E
  end.
  - left. now eexists _, _.
  - right. now eexists _, _.
Qed.

(** X12. Whatever is typed and whatever the filesystem holds, [start] ends
    abnormally only by the exception of [stoi]: no operation that fails
    ends the session. *)
Theorem start_throws_only_from_stoi (fuel : nat) (w : world) (e : exn) :
  fst (UI.start fuel w) = Throw e -> Behaviour.from_stoi e.
Proof.
  unfold UI.start. generalize "" as command. revert w.
  induction fuel as [|fuel IH]; intros w command; simpl; [discriminate|].
  unfold bind.
  destruct (turn_returns_or_stoi command w)
    as [[[f c] [w' E]]|[e' [w' [E He]]]]; rewrite E.
  - destruct f; [apply IH | discriminate].
  - simpl. intros H. now injection H as <-.
Qed.

Lemma start_throws_only_from_stoi_witness :
  fst (UI.start 3 (Examples.world_with
                     (Examples.line "5" ++ Examples.line "/tmp/t/locked" ++
                      Examples.line "x")))
  = Throw (invalid_argument "stoi") /\
  Behaviour.from_stoi (invalid_argument "stoi").
Proof.
  split; [reflexivity|].
  apply (@start_throws_only_from_stoi 3
           (Examples.world_with
              (Examples.line "5" ++ Examples.line "/tmp/t/locked" ++
               Examples.line "x"))
           (invalid_argument "stoi")).
  reflexivity.
Defined.

(** The listing of [/tmp/t/locked] fails with 500, the loop goes on and
    reads the next command. *)
Example failed_operation_does_not_end_the_session :
  fst (UI.start 2 (Examples.world_with
                     (Examples.line "5" ++ Examples.line "/tmp/t/locked" ++
                      Examples.line "9" ++ Examples.line "y")))
  = Ret (Some tt).
Proof. reflexivity. Qed.

(** ** Leaving the loop, and the end of the input (X13, X14) *)

Lemma dispatch_break (command : string) (w w' : world) :
  UI.dispatch command w = (Ret UI.Break, w') ->
  command = "9" /\
  UI.confirmed (Console.answer w) = true /\
  root w' = root w /\
  cout w' = (cout w ++ [Contract.sure_exit; Contract.goodbye])%list.
Proof.
  unfold UI.dispatch. destruct (String.eqb_spec command "9") as [->|Hne].
  - unfold bind, cout_put, in_world, modify, Console.ignore. simpl.
    rewrite read_char_run. unfold Console.answer. simpl.
    destruct (UI.confirmed _) eqn:C; simpl; intros E; [|discriminate].
    injection E as <-. simpl. rewrite <- app_assoc. auto.
  - unfold bind.
    destruct (UI.processCommand command w) as [[u|e] w1]; discriminate.
Qed.

(** X13. [start] is left by [break] only through the exit command: when
    it returns, the last two things printed are the exit prompt and the
    farewell. *)
Theorem start_ends_only_by_confirmed_exit (fuel : nat) (w : world) :
  fst (UI.start fuel w) = Ret (Some tt) ->
  exists before,
    cout (snd (UI.start fuel w))
    = (before ++ [Contract.sure_exit; Contract.goodbye])%list.
Proof.
  unfold UI.start. generalize "" as command. revert w.
  induction fuel as [|fuel IH]; intros w command; simpl; [discriminate|].
  destruct (UI.turn command w) as [[[f c]|e] w1] eqn:T;
    [rewrite !(bind_ret_run _ _ _ T) | rewrite !(bind_throw_run _ _ _ T);
                                       discriminate].
  destruct f; [apply IH|]. intros _. simpl.
  unfold UI.turn, bind, cout_put, in_world, modify, Console.getline in T.
  simpl in T. destruct (Console.getline_from (cin w) command) as [i ln].
  simpl in T.
  match type of T with
  | context [UI.dispatch ln ?w0] =>
      destruct (UI.dispatch ln w0) as [[f|e] w2] eqn:D; [|discriminate T];
      injection T as -> _ ->;
      apply dispatch_break in D as [_ [_ [_ ->]]]
  end.
  eexists. reflexivity.
Qed.

Lemma start_ends_only_by_confirmed_exit_witness :
  exists before,
    cout (snd (UI.start 4 (Examples.world_with
                             (Examples.line "12" ++ Examples.line "9" ++
                              Examples.line "n" ++ Examples.line "9" ++
                              Examples.line "Y"))))
    = (before ++ [Contract.sure_exit; Contract.goodbye])%list.
Proof.
  apply (@start_ends_only_by_confirmed_exit 4
           (Examples.world_with
              (Examples.line "12" ++ Examples.line "9" ++
               Examples.line "n" ++ Examples.line "9" ++ Examples.line "Y"))).
  reflexivity.
Defined.

(** X14. When the input ends at the menu prompt ([cin] is good and holds
    nothing more), [getline] yields the empty line, [stoi] throws
    [invalid_argument] and [start] ends by it: the end of the input does
    not end the loop in an orderly way. *)
Theorem end_of_input_ends_start_by_exception (fuel : nat) (w : world) :
  good (cin w) = true ->
  buffer (cin w) = "" ->
  fst (UI.start (S fuel) w) = Throw (invalid_argument "stoi").
Proof.
  intros Hgood Hempty. unfold UI.start. simpl. unfold bind at 1.
  pose proof (@unparsable_command_ends_turn "" w (invalid_argument "stoi"))
    as Hturn.
  destruct (UI.turn "" w) as [r w1]. simpl in Hturn. rewrite Hturn.
  - reflexivity.
  - unfold Console.getline_from. rewrite Hgood, Hempty. reflexivity.
Qed.

Lemma end_of_input_ends_start_by_exception_witness :
  fst (UI.start 1 (Examples.world_with ""))
  = Throw (invalid_argument "stoi").
Proof.
  apply (@end_of_input_ends_start_by_exception 0 (Examples.world_with ""));
    reflexivity.
Defined.

(** ** The controller of [FileManager.cpp] (X15 to X20) *)

Section KeepsInput.
Context {S : Type} `{Process S}.

Lemma keeps_bind {A B} (m : M S A) (k : A -> M S B) :
  Behaviour.keeps_input m -> (forall a, Behaviour.keeps_input (k a)) ->
  Behaviour.keeps_input (bind m k).
Proof.
  intros Hm Hk s. unfold bind. specialize (Hm s).
  destruct (m s) as [[a|e] s']; simpl in *; [rewrite Hk|]; exact Hm.
Qed.

Lemma keeps_ret {A} (a : A) : Behaviour.keeps_input (@ret S A a).
Proof. intros s. reflexivity. Qed.

Lemma keeps_throw {A} (e : exn) : Behaviour.keeps_input (@throw S A e).
Proof. intros s. reflexivity. Qed.

Lemma keeps_try_catch {A} (body : M S A) catches (handler : exn -> M S A) :
  Behaviour.keeps_input body -> (forall e, Behaviour.keeps_input (handler e)) ->
  Behaviour.keeps_input (try_catch body catches handler).
Proof.
  intros Hb Hh s. unfold try_catch. specialize (Hb s).
  destruct (body s) as [[a|e] s']; simpl in *; [exact Hb|].
  destruct (catches e); simpl; [rewrite Hh|]; exact Hb.
Qed.

Lemma keeps_for_each {A} (l : list A) (body : A -> M S unit) :
  (forall x, Behaviour.keeps_input (body x)) ->
  Behaviour.keeps_input (for_each l body).
Proof.
  intros Hb. induction l as [|x l IH]; simpl.
  - apply keeps_ret.
  - apply keeps_bind; [apply Hb | intros _; exact IH].
Qed.

End KeepsInput.

Lemma keeps_world {A} (m : M Os.node A) :
  Behaviour.keeps_input (@in_world world _ A (on_root m)).
Proof. intros w. unfold in_world, on_root. simpl. now destruct (m (root w)). Qed.

Lemma keeps_local {V A} (m : M Os.node A) :
  Behaviour.keeps_input (@in_world (world * V) _ A (on_root m)).
Proof.
  intros [w v]. unfold in_world, on_root. simpl. now destruct (m (root w)).
Qed.

Lemma keeps_with_local {A V} (f : M (world * V) A) (v : V) :
  Behaviour.keeps_input f -> Behaviour.keeps_input (with_local f v).
Proof.
  intros Hf w. unfold with_local. specialize (Hf (w, v)).
  now destruct (f (w, v)) as [[a|e] [w' v']].
Qed.

Ltac keeps :=
  repeat first
    [ apply keeps_bind; [|intros ?]
    | apply keeps_try_catch; [|intros ?]
    | apply keeps_with_local
    | apply keeps_for_each; intros ?
    | apply keeps_world
    | apply keeps_local
    | match goal with
      | |- Behaviour.keeps_input (if ?b then _ else _) => destruct b
      | |- Behaviour.keeps_input (match ?x with _ => _ end) => destruct x
      end
    | solve [intros ?; reflexivity] ].

(** The printing facade reads nothing. *)
Lemma printing_keeps_input :
  (forall p, Behaviour.keeps_input (Printing.listDirectoryContents p)) /\
  (forall p, Behaviour.keeps_input (Printing.createFile p)) /\
  (forall p, Behaviour.keeps_input (Printing.deleteFile p)) /\
  (forall p, Behaviour.keeps_input (Printing.createDirectory p)) /\
  (forall p, Behaviour.keeps_input (Printing.deleteDirectory p)) /\
  (forall p q, Behaviour.keeps_input (Printing.rename p q)) /\
  (forall p q, Behaviour.keeps_input (Printing.searchFiles p q)).
Proof.
  unfold Printing.listDirectoryContents, Printing.createFile,
    Printing.deleteFile, Printing.createDirectory, Printing.deleteDirectory,
    Printing.rename, Printing.searchFiles, Printing.searchFiles_body,
    Printing.invalid_directory, fs.range_for, fs.exists_, fs.is_directory,
    fs.ofstream, fs.remove, fs.create_directory, fs.remove_all, fs.rename,
    fs.directory_iterator, fs.recursive_directory_iterator.
  repeat apply conj; intros; keeps.
Qed.

(** *** Reading the option *)

Lemma extract_int_failed (i : istream) (n : Z) :
  good i = false ->
  Formatted.extract_int i n
  = ({| buffer := buffer i; eofbit := eofbit i; failbit := true |}, n).
Proof. intros H. unfold Formatted.extract_int. now rewrite H. Qed.

Lemma extract_word_failed (i : istream) (str : string) :
  good i = false ->
  Formatted.extract_word i str
  = ({| buffer := buffer i; eofbit := eofbit i; failbit := true |}, str).
Proof. intros H. unfold Formatted.extract_word. now rewrite H. Qed.

Lemma failbit_not_good (i : istream) : failbit i = true -> good i = false.
Proof. intros H. unfold good. rewrite H. apply andb_false_r. Qed.

(** A turn, by what [cin >> choice] gives. *)
Lemma earlier_turn_run (l : Earlier.locals) (w : world) :
  Earlier.turn l w
  = Earlier.switch l (snd (Formatted.extract_int (cin w) (Earlier.choice l)))
      (set_cin (fst (Formatted.extract_int (cin w) (Earlier.choice l)))
               (put_cout Earlier.menu w)).
Proof.
  unfold Earlier.turn, Earlier.showMenu, Formatted.cin_int, bind.
  change (cout_put Earlier.menu w) with (Ret tt, put_cout Earlier.menu w).
  cbv beta iota. change (cin (put_cout Earlier.menu w)) with (cin w).
  now destruct (Formatted.extract_int (cin w) (Earlier.choice l)).
Qed.

Lemma earlier_start_run (fuel : nat) (l l' : Earlier.locals) (w w' : world) :
  Earlier.turn l w = (Ret l', w') ->
  Earlier.start_from (S fuel) l w
  = if (Earlier.choice l' =? 0)%Z then (Ret (Some tt), w')
    else Earlier.start_from fuel l' w'.
Proof.
  intros E. simpl. rewrite (bind_ret_run _ _ _ E).
  now destruct (Earlier.choice l' =? 0)%Z.
Qed.

Lemma earlier_start_throws (fuel : nat) (l : Earlier.locals) (w : world) e w' :
  Earlier.turn l w = (Throw e, w') ->
  Earlier.start_from (S fuel) l w = (Throw e, w').
Proof. intros E. simpl. now rewrite (bind_throw_run _ _ _ E). Qed.

(** *** Option 0, and what is read as option 0 (X15, X16) *)

Lemma earlier_exit (fuel : nat) (l : Earlier.locals) (w : world) :
  snd (Formatted.extract_int (cin w) (Earlier.choice l)) = 0%Z ->
  Earlier.start_from (S fuel) l w
  = (Ret (Some tt),
     put_cout Earlier.exiting
       (set_cin (fst (Formatted.extract_int (cin w) (Earlier.choice l)))
                (put_cout Earlier.menu w))).
Proof.
  intros H0.
  erewrite earlier_start_run; [|rewrite earlier_turn_run, H0; reflexivity].
  reflexivity.
Qed.

(** X15. When [cin >> choice] leaves 0 in [choice], [start] prints the menu
    and [Exiting program.] and returns after this one turn: the tree is as
    it was and nothing went to [cerr]. *)
Theorem earlier_option_zero_exits (fuel : nat) (l : Earlier.locals) (w : world) :
  snd (Formatted.extract_int (cin w) (Earlier.choice l)) = 0%Z ->
  exists w',
    Earlier.start_from (S fuel) l w = (Ret (Some tt), w') /\
    Contract.only_printed w w' [Earlier.menu; Earlier.exiting].
Proof.
  intros H0. eexists. split; [apply (earlier_exit fuel l w H0)|].
  unfold Contract.only_printed. simpl. now rewrite <- app_assoc.
Qed.

Lemma earlier_option_zero_exits_witness :
  exists w',
    Earlier.start_from 1 {| Earlier.choice := 7; Earlier.path := "";
                            Earlier.newPath := ""; Earlier.query := "" |}
                       (Examples.world_with ("0" ++ endl))
    = (Ret (Some tt), w') /\
    Contract.only_printed (Examples.world_with ("0" ++ endl)) w'
      [Earlier.menu; Earlier.exiting].
Proof.
  apply (@earlier_option_zero_exits 0
           {| Earlier.choice := 7; Earlier.path := "";
              Earlier.newPath := ""; Earlier.query := "" |}
           (Examples.world_with ("0" ++ endl))).
  reflexivity.
Defined.

Lemma extract_int_no_number (i : istream) (n : Z) (c : ascii) (rest : string) :
  good i = true ->
  Cxx.skip_spaces (buffer i) = String c rest ->
  Cxx.isdigit c = false -> c <> "-"%char -> c <> "+"%char ->
  snd (Formatted.extract_int i n) = 0%Z /\
  failbit (fst (Formatted.extract_int i n)) = true.
Proof.
  intros Hgood Hskip Hdigit Hminus Hplus.
  unfold Formatted.extract_int. rewrite Hgood, Hskip.
  assert (E : (match String c rest with
               | String "-" r => (true, r)
               | String "+" r => (false, r)
               | _ => (false, String c rest)
               end) = (false, String c rest)).
  { destruct (Ascii.eqb_spec c "-"); [contradiction|].
    destruct (Ascii.eqb_spec c "+"); [contradiction|].
    destruct c as [[] [] [] [] [] [] [] []]; try reflexivity; congruence. }
  rewrite E. cbn [Cxx.leading_digits]. rewrite Hdigit. now split.
Qed.

(** X16. When the first thing in the input that is not white space is
    neither a digit nor a sign, [cin >> choice] stores 0 (the rule of the
    standard since C++11) and sets failbit, so [start] takes it for the
    exit option: it prints [Exiting program.] and returns, whatever
    [choice] held before. *)
Theorem earlier_word_for_option_exits (fuel : nat) (uninitialised : Z)
        (w : world) (c : ascii) (rest : string) :
  good (cin w) = true ->
  Cxx.skip_spaces (buffer (cin w)) = String c rest ->
  Cxx.isdigit c = false -> c <> "-"%char -> c <> "+"%char ->
  exists w',
    Earlier.start (S fuel) uninitialised w = (Ret (Some tt), w') /\
    Contract.only_printed w w' [Earlier.menu; Earlier.exiting] /\
    failbit (cin w') = true.
Proof.
  intros Hgood Hskip Hdigit Hminus Hplus.
  destruct (@extract_int_no_number (cin w) uninitialised c rest Hgood Hskip
              Hdigit Hminus Hplus) as [H0 Hfail].
  unfold Earlier.start. eexists. split; [|split].
  - apply earlier_exit. exact H0.
  - unfold Contract.only_printed. simpl. now rewrite <- app_assoc.
  - exact Hfail.
Qed.

Lemma earlier_word_for_option_exits_witness :
  exists w',
    Earlier.start 1 7 (Examples.world_with ("list /tmp" ++ endl))
    = (Ret (Some tt), w') /\
    Contract.only_printed (Examples.world_with ("list /tmp" ++ endl)) w'
      [Earlier.menu; Earlier.exiting] /\
    failbit (cin w') = true.
Proof.
  apply (@earlier_word_for_option_exits 0 7
           (Examples.world_with ("list /tmp" ++ endl)) "l"%char
           ("ist /tmp" ++ endl));
    [reflexivity | reflexivity | reflexivity | discriminate | discriminate].
Defined.

(** *** Options outside the menu (X17) *)

Lemma switch_default (l : Earlier.locals) (k : Z) :
  (k < 0 \/ 7 < k)%Z ->
  Earlier.switch l k
  = (cout_put Earlier.invalid_option ;;
     ret {| Earlier.choice := k; Earlier.path := Earlier.path l;
            Earlier.newPath := Earlier.newPath l;
            Earlier.query := Earlier.query l |})%cxx.
Proof.
  intros Hk. unfold Earlier.switch.
  destruct k as [|p|p]; [lia| |reflexivity].
  destruct p as [[[p|p|]|[p|p|]|]|[[p|p|]|[p|p|]|]|]; try reflexivity; lia.
Qed.

(** X17. An option below 0 or above 7 is answered with [Invalid option.
    Please try again.]: the turn touches neither the tree nor the paths
    typed before, and since [choice] is not 0 the loop goes on. *)
Theorem earlier_unknown_option_goes_on (l : Earlier.locals) (w : world) (k : Z) :
  snd (Formatted.extract_int (cin w) (Earlier.choice l)) = k ->
  (k < 0 \/ 7 < k)%Z ->
  exists w',
    Earlier.turn l w
    = (Ret {| Earlier.choice := k; Earlier.path := Earlier.path l;
              Earlier.newPath := Earlier.newPath l;
              Earlier.query := Earlier.query l |}, w') /\
    Contract.only_printed w w' [Earlier.menu; Earlier.invalid_option] /\
    forall fuel,
      Earlier.start_from (S fuel) l w
      = Earlier.start_from fuel
          {| Earlier.choice := k; Earlier.path := Earlier.path l;
             Earlier.newPath := Earlier.newPath l;
             Earlier.query := Earlier.query l |} w'.
Proof.
  intros Hread Hk.
  assert (E : Earlier.turn l w
    = (Ret {| Earlier.choice := k; Earlier.path := Earlier.path l;
              Earlier.newPath := Earlier.newPath l;
              Earlier.query := Earlier.query l |},
       put_cout Earlier.invalid_option
         (set_cin (fst (Formatted.extract_int (cin w) (Earlier.choice l)))
                  (put_cout Earlier.menu w)))).
  { rewrite earlier_turn_run, Hread, (@switch_default l k Hk). reflexivity. }
  eexists. split; [exact E|]. split.
  - unfold Contract.only_printed. simpl. now rewrite <- app_assoc.
  - intros fuel. rewrite (@earlier_start_run fuel _ _ _ _ E). simpl Earlier.choice.
    destruct (Z.eqb_spec k 0); [lia | reflexivity].
Qed.

Lemma earlier_unknown_option_goes_on_witness :
  exists w',
    Earlier.turn {| Earlier.choice := 0; Earlier.path := "/tmp";
                    Earlier.newPath := ""; Earlier.query := "" |}
                 (Examples.world_with ("8" ++ endl ++ "0" ++ endl))
    = (Ret {| Earlier.choice := 8; Earlier.path := "/tmp";
              Earlier.newPath := ""; Earlier.query := "" |}, w') /\
    Contract.only_printed (Examples.world_with ("8" ++ endl ++ "0" ++ endl)) w'
      [Earlier.menu; Earlier.invalid_option] /\
    forall fuel,
      Earlier.start_from (S fuel)
        {| Earlier.choice := 0; Earlier.path := "/tmp";
           Earlier.newPath := ""; Earlier.query := "" |}
        (Examples.world_with ("8" ++ endl ++ "0" ++ endl))
      = Earlier.start_from fuel
          {| Earlier.choice := 8; Earlier.path := "/tmp";
             Earlier.newPath := ""; Earlier.query := "" |} w'.
Proof.
  apply (@earlier_unknown_option_goes_on
           {| Earlier.choice := 0; Earlier.path := "/tmp";
              Earlier.newPath := ""; Earlier.query := "" |}
           (Examples.world_with ("8" ++ endl ++ "0" ++ endl)) 8%Z);
    [reflexivity | right; reflexivity].
Defined.

(** *** A stream that has failed (X18) *)

Lemma ensures_bind {S A B} (pre : S -> Prop) (m : M S A) (k : A -> M S B)
      (mid : A -> S -> Prop) (post : B -> S -> Prop) :
  Behaviour.ensures pre m mid ->
  (forall a, Behaviour.ensures (mid a) (k a) post) ->
  Behaviour.ensures pre (bind m k) post.
Proof.
  intros Hm Hk s Hs. specialize (Hm s Hs). unfold bind.
  destruct (m s) as [[a|e] s']; [apply (Hk a s' Hm) | exact I].
Qed.

Lemma ensures_ret {S A} (pre : S -> Prop) (a : A) (post : A -> S -> Prop) :
  (forall s, pre s -> post a s) -> Behaviour.ensures pre (ret a) post.
Proof. intros H s Hs. simpl. auto. Qed.

Lemma failed_kept {A} (m : M world A) :
  Behaviour.keeps_input m ->
  Behaviour.ensures Behaviour.failed m (fun _ => Behaviour.failed).
Proof.
  intros Hm w Hw. specialize (Hm w). unfold Behaviour.failed in *.
  destruct (m w) as [[a|e] w']; [|exact I]. simpl in Hm. now rewrite Hm.
Qed.

Lemma failed_cin_word (str : string) :
  Behaviour.ensures Behaviour.failed (Formatted.cin_word str)
                    (fun _ => Behaviour.failed).
Proof.
  intros w Hw. unfold Formatted.cin_word, Behaviour.failed in *.
  rewrite (@extract_word_failed _ str Hw). now apply failbit_not_good.
Qed.

Ltac stays_failed :=
  repeat first
    [ eapply ensures_bind;
      [ first [ apply failed_cin_word
              | apply failed_kept;
                first [ apply printing_keeps_input
                      | intros ?; reflexivity ] ]
      | intros ? ]
    | apply ensures_ret; intros ? ?; split; [reflexivity | assumption] ].

(** With a failed stream the switch reads nothing and keeps the option. *)
Lemma switch_failed (l : Earlier.locals) (c : Z) :
  Behaviour.ensures Behaviour.failed (Earlier.switch l c)
    (fun l' w' => Earlier.choice l' = c /\ Behaviour.failed w').
Proof.
  unfold Earlier.switch.
  destruct c as [|p|p]; [stays_failed| |stays_failed].
  destruct p as [[[p|p|]|[p|p|]|]|[[p|p|]|[p|p|]|]|]; stays_failed.
Qed.

Lemma turn_failed (l : Earlier.locals) :
  Behaviour.ensures Behaviour.failed (Earlier.turn l)
    (fun l' w' => Earlier.choice l' = Earlier.choice l /\ Behaviour.failed w').
Proof.
  intros w Hw. rewrite earlier_turn_run.
  unfold Behaviour.failed in Hw. rewrite (@extract_int_failed _ (Earlier.choice l) Hw).
  apply switch_failed. now apply failbit_not_good.
Qed.

(** X18. Once [cin] has failed or ended, [cin >> choice] leaves [choice]
    as it is, so the option last chosen is run again on every turn: with
    [choice] other than 0, [start] does not return, however many turns it
    is given (it goes on turning, or an operation throws). *)
Theorem earlier_failed_input_never_ends (fuel : nat) (l : Earlier.locals)
        (w : world) :
  good (cin w) = false ->
  Earlier.choice l <> 0%Z ->
  fst (Earlier.start_from fuel l w) <> Ret (Some tt).
Proof.
  revert l w. induction fuel as [|fuel IH]; intros l w Hw Hl.
  - discriminate.
  - pose proof (@turn_failed l w Hw) as Ht.
    destruct (Earlier.turn l w) as [[l'|e] w'] eqn:E.
    + destruct Ht as [Hc Hw'].
      rewrite (@earlier_start_run fuel _ _ _ _ E), Hc.
      destruct (Z.eqb_spec (Earlier.choice l) 0); [contradiction|].
      apply IH; [exact Hw' | now rewrite Hc].
    + rewrite (@earlier_start_throws fuel _ _ _ _ E). discriminate.
Qed.

Lemma earlier_failed_input_never_ends_witness :
  fst (Earlier.start_from 4
         {| Earlier.choice := 1; Earlier.path := "/tmp";
            Earlier.newPath := ""; Earlier.query := "" |}
         (set_cin {| buffer := ""; eofbit := true; failbit := true |}
                  (Examples.world_with "")))
  <> Ret (Some tt).
Proof.
  apply (@earlier_failed_input_never_ends 4
           {| Earlier.choice := 1; Earlier.path := "/tmp";
              Earlier.newPath := ""; Earlier.query := "" |}
           (set_cin {| buffer := ""; eofbit := true; failbit := true |}
                    (Examples.world_with "")));
    [reflexivity | discriminate].
Defined.

(** *** Operations run from the menu (X19, X20) *)

Lemma cin_word_run (str : string) (w : world) (i : istream) (word : string) :
  Formatted.extract_word (cin w) str = (i, word) ->
  Formatted.cin_word str w = (Ret word, set_cin i w).
Proof. intros E. unfold Formatted.cin_word. now rewrite E. Qed.

Lemma switch_list_run (l : Earlier.locals) (w : world) (i : istream)
      (p : string) :
  Formatted.extract_word (cin w) (Earlier.path l) = (i, p) ->
  Earlier.switch l 1 w
  = bind (Printing.listDirectoryContents p)
         (fun _ => ret {| Earlier.choice := 1; Earlier.path := p;
                          Earlier.newPath := Earlier.newPath l;
                          Earlier.query := Earlier.query l |})
         (set_cin i (put_cout "Enter directory path: " w)).
Proof.
  intros E. unfold Earlier.switch. cbv beta iota.
  rewrite (@bind_ret_run _ _ _ _ _ w tt
             (put_cout "Enter directory path: " w) eq_refl).
  now rewrite (@bind_ret_run _ _ _ _ _ _ p _
                 (@cin_word_run (Earlier.path l)
                    (put_cout "Enter directory path: " w) i p E)).
Qed.

Lemma switch_delete_run (l : Earlier.locals) (w : world) (i : istream)
      (p : string) :
  Formatted.extract_word (cin w) (Earlier.path l) = (i, p) ->
  Earlier.switch l 3 w
  = bind (Printing.deleteFile p)
         (fun _ => ret {| Earlier.choice := 3; Earlier.path := p;
                          Earlier.newPath := Earlier.newPath l;
                          Earlier.query := Earlier.query l |})
         (set_cin i (put_cout "Enter file path to delete: " w)).
Proof.
  intros E. unfold Earlier.switch. cbv beta iota.
  rewrite (@bind_ret_run _ _ _ _ _ w tt
             (put_cout "Enter file path to delete: " w) eq_refl).
  now rewrite (@bind_ret_run _ _ _ _ _ _ p _
                 (@cin_word_run (Earlier.path l)
                    (put_cout "Enter file path to delete: " w) i p E)).
Qed.

Lemma printing_list_refused (p : string) (w : world) a es :
  fst (Os.stat p (root w)) = Ret (Some (Os.Directory a es)) ->
  Os.can_open a = false ->
  Printing.listDirectoryContents p w
  = (Throw (filesystem_error
              (match a with Os.IOFailure => EIO | _ => EACCES end)), w).
Proof.
  intros E Ha.
  assert (Hs : with_world (world_of w) w = w) by reflexivity.
  unfold Printing.listDirectoryContents. unfold bind at 1.
  rewrite (@invalid_directory_run _ _ w Hs p). simpl world_of. rewrite E.
  cbv beta iota delta [negb Os.is_dir].
  now run_with (@directory_iterator_refused _ _ w Hs p a es E Ha).
Qed.

(** X19. [start] catches nothing: when option 1 names a directory that
    cannot be opened, the [filesystem_error] of the directory iterator
    leaves [start] instead of being reported, and the tree is untouched. *)
Theorem earlier_unopenable_directory_ends_start (fuel : nat)
        (l : Earlier.locals) (w : world) (i i' : istream) (p : string)
        (a : Os.access) (es : list (string * Os.node)) :
  Formatted.extract_int (cin w) (Earlier.choice l) = (i, 1%Z) ->
  Formatted.extract_word i (Earlier.path l) = (i', p) ->
  fst (Os.stat p (root w)) = Ret (Some (Os.Directory a es)) ->
  Os.can_open a = false ->
  fst (Earlier.start_from (S fuel) l w)
  = Throw (filesystem_error
             (match a with Os.IOFailure => EIO | _ => EACCES end)) /\
  root (snd (Earlier.start_from (S fuel) l w)) = root w.
Proof.
  intros Hint Hword Hstat Ha.
  assert (E : Earlier.turn l w
    = (Throw (filesystem_error
                (match a with Os.IOFailure => EIO | _ => EACCES end)),
       set_cin i' (put_cout "Enter directory path: "
                     (set_cin i (put_cout Earlier.menu w))))).
  { rewrite earlier_turn_run, Hint. cbn [fst snd].
    rewrite (@switch_list_run l (set_cin i (put_cout Earlier.menu w)) i' p Hword).
    now rewrite (bind_throw_run _ _ _
                   (@printing_list_refused p
                      (set_cin i' (put_cout "Enter directory path: "
                                     (set_cin i (put_cout Earlier.menu w))))
                      a es Hstat Ha)). }
  rewrite (@earlier_start_throws fuel _ _ _ _ E). now split.
Qed.

Lemma earlier_unopenable_directory_ends_start_witness :
  fst (Earlier.start_from 3
         {| Earlier.choice := 0; Earlier.path := "";
            Earlier.newPath := ""; Earlier.query := "" |}
         (Examples.world_with ("1 /home/private" ++ endl ++ "0" ++ endl)))
  = Throw (filesystem_error EACCES) /\
  root (snd (Earlier.start_from 3
         {| Earlier.choice := 0; Earlier.path := "";
            Earlier.newPath := ""; Earlier.query := "" |}
         (Examples.world_with ("1 /home/private" ++ endl ++ "0" ++ endl))))
  = root (Examples.world_with ("1 /home/private" ++ endl ++ "0" ++ endl)).
Proof.
  apply (@earlier_unopenable_directory_ends_start 2
           {| Earlier.choice := 0; Earlier.path := "";
              Earlier.newPath := ""; Earlier.query := "" |}
           (Examples.world_with ("1 /home/private" ++ endl ++ "0" ++ endl))
           {| buffer := " /home/private" ++ endl ++ "0" ++ endl;
              eofbit := false; failbit := false |}
           {| buffer := endl ++ "0" ++ endl;
              eofbit := false; failbit := false |}
           "/home/private" Os.PermissionDenied
           [("secret.txt", Os.RegularFile)]);
    reflexivity.
Defined.

(** X20. Option 3 deletes at once: after the option and the path nothing
    more is read from [cin], so no confirmation is asked for.  When
    [fs::remove] removes what is at the path, [File deleted:] is printed and
    the path is gone. *)
Theorem earlier_deletes_without_asking (l : Earlier.locals) (w : world)
        (i i' : istream) (P : string) (n' : Os.node) :
  Formatted.extract_int (cin w) (Earlier.choice l) = (i, 3%Z) ->
  Formatted.extract_word i (Earlier.path l) = (i', P) ->
  Os.remove P (root w) = (Ret true, n') ->
  exists w',
    Earlier.turn l w
    = (Ret {| Earlier.choice := 3; Earlier.path := P;
              Earlier.newPath := Earlier.newPath l;
              Earlier.query := Earlier.query l |}, w') /\
    cin w' = i' /\
    root w' = n' /\
    cout w' = (cout w ++ [Earlier.menu; "Enter file path to delete: ";
                          ("File deleted: " ++ P ++ endl)%string])%list /\
    fs.exists_ P w' = (Ret false, w').
Proof.
  intros Hint Hword Hremove.
  pose proof (remove_gone _ _ Hremove) as Hgone.
  set (w1 := set_cin i' (put_cout "Enter file path to delete: "
                           (set_cin i (put_cout Earlier.menu w)))).
  exists (put_cout ("File deleted: " ++ P ++ endl) (set_root n' w1)).
  split; [|split; [|split; [|split]]].
  - rewrite earlier_turn_run, Hint. cbn [fst snd].
    rewrite (@switch_delete_run l (set_cin i (put_cout Earlier.menu w)) i' P Hword). fold w1.
    unfold bind. rewrite printing_deleteFile_run.
    change (root w1) with (root w). now rewrite Hremove.
  - reflexivity.
  - reflexivity.
  - simpl. now rewrite <- !app_assoc.
  - apply (@exists_found _ _ _ (with_world_same_world _) P None).
    exact Hgone.
Qed.

Lemma earlier_deletes_without_asking_witness :
  exists w',
    Earlier.turn {| Earlier.choice := 0; Earlier.path := "";
                    Earlier.newPath := ""; Earlier.query := "" |}
                 (Examples.world_with ("3 /tmp/t/a.txt" ++ endl ++ "n" ++ endl))
    = (Ret {| Earlier.choice := 3; Earlier.path := "/tmp/t/a.txt";
              Earlier.newPath := ""; Earlier.query := "" |}, w') /\
    cin w' = {| buffer := endl ++ "n" ++ endl;
                eofbit := false; failbit := false |} /\
    root w' = snd (Os.remove "/tmp/t/a.txt" Examples.tree) /\
    cout w' = (cout (Examples.world_with
                       ("3 /tmp/t/a.txt" ++ endl ++ "n" ++ endl))
               ++ [Earlier.menu; "Enter file path to delete: ";
                   ("File deleted: " ++ "/tmp/t/a.txt" ++ endl)%string])%list /\
    fs.exists_ "/tmp/t/a.txt" w' = (Ret false, w').
Proof.
  apply (@earlier_deletes_without_asking
           {| Earlier.choice := 0; Earlier.path := "";
              Earlier.newPath := ""; Earlier.query := "" |}
           (Examples.world_with ("3 /tmp/t/a.txt" ++ endl ++ "n" ++ endl))
           {| buffer := " /tmp/t/a.txt" ++ endl ++ "n" ++ endl;
              eofbit := false; failbit := false |}
           {| buffer := endl ++ "n" ++ endl;
              eofbit := false; failbit := false |}
           "/tmp/t/a.txt" (snd (Os.remove "/tmp/t/a.txt" Examples.tree)));
    reflexivity.
Defined.
